(** * Blind Dinner Enterprise: the client-side services and their users

    A shallow embedding of the services of [src/App.test.tsx]
    ([APIService], lines 286-429, [RealtimeService], lines 443-520, and
    [NotificationService], lines 522-583), of the providers and screens
    that use them ([AuthProvider], [RealtimeProvider], [LoginScreen] and
    [MainContent]), and of the small part of the JavaScript runtime they
    run on: function values compared by reference, insertion-ordered [Set]s,
    [forEach] with exceptions, [setTimeout], the clock, the browser's
    [WebSocket] objects, [fetch] and [localStorage].

    The first part holds the embedding, the second part the properties. *)

From Stdlib Require Import ZArith.
From stdpp Require Import base decidable option list gmap strings pretty.

#[local] Set Warnings "-register-all,-clear-no-such-hyp".

(* ===================================================================== *)
(** * Part I. The embedding                                               *)
(* ===================================================================== *)

(** ** The JavaScript runtime the services use *)

Module JS.

(** A function value.  [Set.add], [Set.delete] and [Set.has] compare
    functions by reference, so a callback is modelled by its reference.
    What a callback does when called is given separately (see
    [forEach]): it is an observer that either returns or throws; it does
    not call back into the service that invokes it. *)
Definition callback := nat.

(** How a call ends. *)
Inductive completion := Normal | Throw.

(** Values of type [any] that travel through the push client: the results
    of [JSON.parse], the object literals of the source and what callers
    hand to [send].  Numbers are the integers; a [BigInt] is a value that
    [JSON.stringify] does not accept. *)
Inductive value :=
| VUndefined
| VNull
| VBool (b : bool)
| VNum (n : Z)
| VStr (s : string)
| VArr (items : list value)
| VObj (fields : list (string * value))
| VBigInt (n : Z).

Fixpoint assoc (k : string) (fields : list (string * value)) : option value :=
  match fields with
  | [] => None
  | (k', v) :: rest => if decide (k = k') then Some v else assoc k rest
  end.

(** Property read [v.k].  [None] is the [TypeError] of reading a property
    of [null] or [undefined]; a missing property reads as [undefined]. *)
Definition get_prop (v : value) (k : string) : option value :=
  match v with
  | VUndefined | VNull => None
  | VObj fields => Some (default VUndefined (assoc k fields))
  | _ => Some VUndefined
  end.

(** [JSON.stringify(v)] returns a text: there is no [BigInt] in [v], for
    which it throws a [TypeError]. *)
Fixpoint serializable (v : value) : bool :=
  match v with
  | VBigInt _ => false
  | VArr items => forallb serializable items
  | VObj fields => forallb (λ '(_, x), serializable x) fields
  | _ => true
  end.

(** [JSON.stringify(v)]: the text, which stands as the value it is the
    text of, or [None] for the [TypeError]. *)
Definition JSON_stringify (v : value) : option value :=
  if serializable v then Some v else None.

(** [Set<callback>]: insertion ordered, without duplicates. *)
Definition Set_add (cb : callback) (s : list callback) : list callback :=
  if decide (cb ∈ s) then s else s ++ [cb].

Definition Set_delete (cb : callback) (s : list callback) : list callback :=
  filter (λ c, c ≠ cb) s.

Section ForEach.
Context {D : Type}.
(** [raises cb d]: the call [cb(d)] throws. *)
Variable raises : callback → D → bool.

(** [s.forEach(callback => callback(data))]: the callbacks are called in
    insertion order; the first one that throws ends the loop, and the
    exception leaves [forEach].  The result lists the calls made. *)
Fixpoint forEach (s : list callback) (data : D)
  : list (callback * D) * completion :=
  match s with
  | [] => ([], Normal)
  | cb :: rest =>
      if raises cb data then ([(cb, data)], Throw)
      else let '(made, c) := forEach rest data in ((cb, data) :: made, c)
  end.

(** A [forEach] over [s] that made the calls [made] and ended as [c] went
    through the set in order and stopped at the first callback that threw:
    [invoked] were called, [skipped] were not. *)
Definition stops_at_first_raise (s : list callback) (data : D)
  (made : list (callback * D)) (c : completion) : Prop :=
  ∃ invoked skipped,
    s = invoked ++ skipped
    ∧ made = (λ cb, (cb, data)) <$> invoked
    ∧ match c with
      | Normal => skipped = [] ∧ Forall (λ cb, raises cb data = false) s
      | Throw =>
          ∃ before bad,
            invoked = before ++ [bad]
            ∧ raises bad data = true
            ∧ Forall (λ cb, raises cb data = false) before
      end.
End ForEach.

(** [setTimeout]: a pending timer is its due time and what it runs.  The
    queue is kept in firing order: by due time, and in the order of the
    [setTimeout] calls among equal due times. *)
Section Timers.
Context {A : Type}.

Fixpoint enqueue (t : Z * A) (q : list (Z * A)) : list (Z * A) :=
  match q with
  | [] => [t]
  | u :: q' => if (t.1 <? u.1)%Z then t :: u :: q' else u :: enqueue t q'
  end.

(** [setTimeout(f, delay)] called at time [now]; a negative delay counts
    as zero. *)
Definition setTimeout (now : Z) (f : A) (delay : Z) (q : list (Z * A))
  : list (Z * A) :=
  enqueue ((now + Z.max 0 delay)%Z, f) q.

Definition due (now : Z) (q : list (Z * A)) : list (Z * A) :=
  filter (λ t, (t.1 ≤ now)%Z) q.

Definition pending (now : Z) (q : list (Z * A)) : list (Z * A) :=
  filter (λ t, (now < t.1)%Z) q.
End Timers.

End JS.

(** ** [class RealtimeService] (the push client) *)

Module RealtimeService.
Import JS.

(** [WebSocket.readyState] *)
Inductive ReadyState := CONNECTING | OPEN | CLOSING | CLOSED.

Global Instance ReadyState_eq_dec : EqDecision ReadyState.
Proof. solve_decision. Defined.

(** A browser [WebSocket] object: the URL it was constructed with, its
    state, and the arguments of the [JSON.stringify] calls whose text was
    handed to [send], oldest first.  Every socket the service constructs
    carries the same four handlers ([onopen], [onmessage], [onclose],
    [onerror] below), which refer to the service and not to the socket. *)
Record WebSocket := mkWebSocket {
  url : string;
  readyState : ReadyState;
  sent : list value;
}.

(** [CONFIG.WEBSOCKET_URL] when [REACT_APP_WEBSOCKET_URL] is not set. *)
Definition WEBSOCKET_URL : string := "wss://realtime.blinddinner.com".

(** [new WebSocket(`${CONFIG.WEBSOCKET_URL}?token=${token}`)] *)
Definition new_WebSocket (token : string) : WebSocket :=
  {| url := WEBSOCKET_URL +:+ "?token=" +:+ token;
     readyState := CONNECTING;
     sent := [] |}.

(** [WebSocket.close()]: an open or connecting socket starts closing; the
    browser delivers its [close] event later. *)
Definition WebSocket_close (s : WebSocket) : WebSocket :=
  match readyState s with
  | CONNECTING | OPEN =>
      {| url := url s; readyState := CLOSING; sent := sent s |}
  | CLOSING | CLOSED => s
  end.

(** [WebSocket.send(text)] on an open socket. *)
Definition WebSocket_send (msg : value) (s : WebSocket) : WebSocket :=
  {| url := url s; readyState := readyState s; sent := sent s ++ [msg] |}.

Definition set_readyState (r : ReadyState) (s : WebSocket) : WebSocket :=
  {| url := url s; readyState := r; sent := sent s |}.

(** The lines the service writes to the console. *)
Inductive LogLine :=
| LogConnected                 (* 'WebSocket connected' *)
| LogDisconnected              (* 'WebSocket disconnected' *)
| LogReconnecting (attempt : Z) (* `Reconnecting... attempt ${n}` *)
| LogParseError                (* 'WebSocket message parse error:' *)
| LogSocketError.              (* 'WebSocket error:' *)

(** The private fields of the class.  [ws] is a reference into the heap of
    sockets of [World]. *)
Record Fields := mkFields {
  ws : option nat;
  reconnectAttempts : Z;
  maxReconnectAttempts : Z;
  reconnectInterval : Z;
  subscribers : gmap string (list callback);
}.

(** One service instance in its environment: every socket constructed so
    far (a reference is an index), the pending timers (each runs the arrow
    function of [handleReconnect]), the clock in milliseconds, the console,
    and the calls made to subscriber callbacks, oldest first. *)
Record World := mkWorld {
  this : Fields;
  heap : list WebSocket;
  timers : list (Z * unit);
  clock : Z;
  console : list LogLine;
  calls : list (callback * value);
}.

(** Field initialisers of the class, in a fresh environment. *)
Definition new_RealtimeService (now : Z) : World :=
  {| this := {| ws := None; reconnectAttempts := 0;
                maxReconnectAttempts := 5; reconnectInterval := 1000;
                subscribers := ∅ |};
     heap := []; timers := []; clock := now; console := []; calls := [] |}.

Definition set_ws (r : option nat) (w : World) : World :=
  {| this := {| ws := r;
                reconnectAttempts := reconnectAttempts (this w);
                maxReconnectAttempts := maxReconnectAttempts (this w);
                reconnectInterval := reconnectInterval (this w);
                subscribers := subscribers (this w) |};
     heap := heap w; timers := timers w; clock := clock w;
     console := console w; calls := calls w |}.

Definition set_reconnectAttempts (n : Z) (w : World) : World :=
  {| this := {| ws := ws (this w);
                reconnectAttempts := n;
                maxReconnectAttempts := maxReconnectAttempts (this w);
                reconnectInterval := reconnectInterval (this w);
                subscribers := subscribers (this w) |};
     heap := heap w; timers := timers w; clock := clock w;
     console := console w; calls := calls w |}.

Definition set_subscribers (m : gmap string (list callback)) (w : World)
  : World :=
  {| this := {| ws := ws (this w);
                reconnectAttempts := reconnectAttempts (this w);
                maxReconnectAttempts := maxReconnectAttempts (this w);
                reconnectInterval := reconnectInterval (this w);
                subscribers := m |};
     heap := heap w; timers := timers w; clock := clock w;
     console := console w; calls := calls w |}.

Definition set_heap (h : list WebSocket) (w : World) : World :=
  {| this := this w; heap := h; timers := timers w; clock := clock w;
     console := console w; calls := calls w |}.

Definition set_timers (q : list (Z * unit)) (w : World) : World :=
  {| this := this w; heap := heap w; timers := q; clock := clock w;
     console := console w; calls := calls w |}.

Definition set_clock (now : Z) (w : World) : World :=
  {| this := this w; heap := heap w; timers := timers w; clock := now;
     console := console w; calls := calls w |}.

Definition log (l : LogLine) (w : World) : World :=
  {| this := this w; heap := heap w; timers := timers w; clock := clock w;
     console := console w ++ [l]; calls := calls w |}.

Definition record_calls (made : list (callback * value)) (w : World) : World :=
  {| this := this w; heap := heap w; timers := timers w; clock := clock w;
     console := console w; calls := calls w ++ made |}.

(** [this.ws && this.ws.readyState === WebSocket.OPEN] *)
Definition connected (w : World) : bool :=
  match ws (this w) with
  | Some r =>
      match heap w !! r with
      | Some s => bool_decide (readyState s = OPEN)
      | None => false
      end
  | None => false
  end.

Section Methods.
(** What the subscriber callbacks do when called. *)
Variable raises : callback → value → bool.

(** [subscribe(eventType, callback)]; the function it returns is
    [unsubscribe eventType callback] below. *)
Definition subscribe (eventType : string) (cb : callback) (w : World)
  : World :=
  let m := match subscribers (this w) !! eventType with
           | Some _ => subscribers (this w)
           | None => <[eventType := []]> (subscribers (this w))
           end in
  set_subscribers (alter (Set_add cb) eventType m) w.

(** The arrow function returned by [subscribe]:
    [this.subscribers.get(eventType)?.delete(callback)]. *)
Definition unsubscribe (eventType : string) (cb : callback) (w : World)
  : World :=
  set_subscribers (alter (Set_delete cb) eventType (subscribers (this w))) w.

(** [onEvent(eventType, data)] *)
Definition onEvent (eventType : string) (data : value) (w : World)
  : World * completion :=
  match subscribers (this w) !! eventType with
  | Some callbacks =>
      let '(made, c) := forEach raises callbacks data in
      (record_calls made w, c)
  | None => (w, Normal)
  end.

(** [handleReconnect()]; the scheduled arrow function is [reconnect_timer]. *)
Definition handleReconnect (w : World) : World :=
  if (reconnectAttempts (this w) <? maxReconnectAttempts (this w))%Z then
    let w1 := set_reconnectAttempts (reconnectAttempts (this w) + 1) w in
    set_timers
      (setTimeout (clock w1) tt
         (reconnectInterval (this w1) * reconnectAttempts (this w1))
         (timers w1))
      w1
  else w.

(** The arrow function given to [setTimeout] in [handleReconnect]: it
    writes one console line, reading [this.reconnectAttempts] when it
    runs.  ("Note: Would need token to reconnect".) *)
Definition reconnect_timer (w : World) : World :=
  log (LogReconnecting (reconnectAttempts (this w))) w.

(** [connect(token)] *)
Definition connect (token : string) (w : World) : World :=
  if connected w then w
  else set_ws (Some (length (heap w)))
         (set_heap (heap w ++ [new_WebSocket token]) w).

(** [this.ws.onopen] *)
Definition onopen (w : World) : World * completion :=
  onEvent "connection" (VObj [("status", VStr "connected")])
    (set_reconnectAttempts 0 (log LogConnected w)).

(** [this.ws.onmessage]; [parsed] is the result of
    [JSON.parse(event.data)], [None] when it throws. *)
Definition onmessage (parsed : option value) (w : World) : World :=
  match parsed with
  | None => log LogParseError w
  | Some data =>
      match get_prop data "type", get_prop data "payload" with
      | Some ty, Some payload =>
          match ty with
          | VStr eventType =>
              match onEvent eventType payload w with
              | (w', Normal) => w'
              | (w', Throw) => log LogParseError w'
              end
          | _ => w  (* no subscriber set is keyed by a non-string *)
          end
      | _, _ => log LogParseError w
      end
  end.

(** [this.ws.onclose] *)
Definition onclose (w : World) : World :=
  handleReconnect (log LogDisconnected w).

(** [this.ws.onerror] *)
Definition onerror (w : World) : World := log LogSocketError w.

(** [send(type, payload)].  The argument of [this.ws.send] is evaluated
    first: when [JSON.stringify] throws, the exception leaves [send] and
    nothing is handed to the socket. *)
Definition send (type : string) (payload : value) (w : World)
  : World * completion :=
  if connected w then
    match ws (this w) with
    | Some r =>
        match JSON_stringify
                (VObj [("type", VStr type); ("payload", payload)]) with
        | Some text =>
            (set_heap (alter (WebSocket_send text) r (heap w)) w, Normal)
        | None => (w, Throw)
        end
    | None => (w, Normal)
    end
  else (w, Normal).

(** [disconnect()] *)
Definition disconnect (w : World) : World :=
  match ws (this w) with
  | Some r => set_ws None (set_heap (alter WebSocket_close r (heap w)) w)
  | None => w
  end.

(** *** The environment: callers, the transport and the passage of time *)

Inductive event :=
| Connect (token : string)
| Subscribe (eventType : string) (cb : callback)
| Unsubscribe (eventType : string) (cb : callback)
| Send (type : string) (payload : value)
| Disconnect
| SocketOpen (r : nat)
| SocketMessage (r : nat) (parsed : option value)
| SocketClose (r : nat)
| SocketError (r : nat)
| Elapse (ms : Z).

Definition state_of (r : nat) (w : World) : option ReadyState :=
  readyState <$> heap w !! r.

Definition set_state (r : nat) (st : ReadyState) (w : World) : World :=
  set_heap (alter (set_readyState st) r (heap w)) w.

(** Time moves on by [ms] milliseconds and the timers that are due run. *)
Definition elapse (ms : Z) (w : World) : World :=
  let now := (clock w + Z.max 0 ms)%Z in
  let fired := due now (timers w) in
  foldl (λ w' _, reconnect_timer w')
        (set_timers (pending now (timers w)) (set_clock now w)) fired.

(** One event.  The browser delivers [open] to a connecting socket,
    [message] to an open one and [close] to one that is not closed yet
    (whether the peer, a failure or [close()] ended it); an event that
    the socket's state rules out does nothing.  An exception that leaves
    a handler is reported by the browser and changes nothing else; one
    that leaves [send] goes to the caller. *)
Definition step (w : World) (e : event) : World :=
  match e with
  | Connect token => connect token w
  | Subscribe k cb => subscribe k cb w
  | Unsubscribe k cb => unsubscribe k cb w
  | Send type payload => (send type payload w).1
  | Disconnect => disconnect w
  | SocketOpen r =>
      match state_of r w with
      | Some CONNECTING => (onopen (set_state r OPEN w)).1
      | _ => w
      end
  | SocketMessage r parsed =>
      match state_of r w with
      | Some OPEN => onmessage parsed w
      | _ => w
      end
  | SocketClose r =>
      match state_of r w with
      | Some CONNECTING | Some OPEN | Some CLOSING =>
          onclose (set_state r CLOSED w)
      | _ => w
      end
  | SocketError r =>
      match state_of r w with
      | Some _ => onerror w
      | None => w
      end
  | Elapse ms => elapse ms w
  end.

Definition run (w : World) (es : list event) : World := foldl step w es.
End Methods.

(** *** The subscription registry on its own

    [subscribe], the handle it returns and [onEvent] as one small machine,
    and the account of it that the specification gives: a callback gets the
    data of the dispatches of a key made while it is registered under that
    key. *)

Inductive registry_op :=
| Sub (eventType : string) (cb : callback)
| Unsub (eventType : string) (cb : callback)
| Dispatch (eventType : string) (data : value).

Definition registry_step (raises : callback → value → bool)
  (w : World) (op : registry_op) : World :=
  match op with
  | Sub k cb => subscribe k cb w
  | Unsub k cb => unsubscribe k cb w
  | Dispatch k data => (onEvent raises k data w).1
  end.

Definition registry_run (raises : callback → value → bool)
  (w : World) (ops : list registry_op) : World :=
  foldl (registry_step raises) w ops.

(** [cb] is in the set kept for [eventType]. *)
Definition is_registered (w : World) (cb : callback) (eventType : string)
  : bool :=
  bool_decide (cb ∈ default [] (subscribers (this w) !! eventType)).

(** The data of the calls made to [cb], oldest first. *)
Definition received (cb : callback) (made : list (callback * value))
  : list value :=
  (filter (λ c, c.1 = cb) made).*2.

Definition mark (k : string) (b : bool) (reg : string → bool) : string → bool :=
  λ k', if decide (k' = k) then b else reg k'.

(** The data [cb] is owed by [ops], read from the operations alone: [reg]
    tells under which keys [cb] is registered; a [subscribe] of [cb] sets
    it for its key, an invoked handle of [cb] clears it, and a dispatch of a
    key under which [cb] is registered then owes its data. *)
Fixpoint owed (reg : string → bool) (cb : callback) (ops : list registry_op)
  : list value :=
  match ops with
  | [] => []
  | Sub k cb' :: rest =>
      owed (if decide (cb' = cb) then mark k true reg else reg) cb rest
  | Unsub k cb' :: rest =>
      owed (if decide (cb' = cb) then mark k false reg else reg) cb rest
  | Dispatch k data :: rest =>
      (if reg k then [data] else []) ++ owed reg cb rest
  end.

(** Every [Set] of the registry is a set. *)
Definition registry_wf (w : World) : Prop :=
  ∀ k s, subscribers (this w) !! k = Some s → NoDup s.

(** No [Connect] among the events. *)
Definition no_connect (es : list event) : Prop :=
  Forall (λ e, match e with Connect _ => False | _ => True end) es.

(** *** The life of a socket, and who is told about it *)

(** The values of [WebSocket.CONNECTING], [OPEN], [CLOSING] and [CLOSED]. *)
Definition ReadyState_code (r : ReadyState) : nat :=
  match r with CONNECTING => 0 | OPEN => 1 | CLOSING => 2 | CLOSED => 3 end.

(** The object [onopen] dispatches: [{ status: 'connected' }]. *)
Definition connected_status : value := VObj [("status", VStr "connected")].

(** No inbound message among the events. *)
Definition no_message (es : list event) : Prop :=
  Forall (λ e, match e with SocketMessage _ _ => False | _ => True end) es.

(** [this.ws] refers to a socket that was constructed, and a socket that has
    not opened yet has sent nothing. *)
Definition sockets_wf (w : World) : Prop :=
  (∀ r, ws (this w) = Some r → r < length (heap w))
  ∧ Forall (λ s, readyState s = CONNECTING → sent s = []) (heap w).

(** A socket later in its life: the same URL, a state that is not an
    earlier one, and what it had sent still at the front of what it has
    sent. *)
Definition moved_forward (s s' : WebSocket) : Prop :=
  url s' = url s
  ∧ ReadyState_code (readyState s) ≤ ReadyState_code (readyState s')
  ∧ sent s `prefix_of` sent s'.

End RealtimeService.

(** ** [RealtimeProvider]: the component that shows the connection status *)

Module RealtimeProvider.
Import JS RealtimeService.

Section Provider.
(** The two arrow functions the effect subscribes,
    [(data) => setConnectionStatus(data.status)] and
    [(data) => setOnlineUsers(data.count)]. *)
Variables on_connection on_online_users : callback.
(** What the callbacks of any other subscribers do when called. *)
Variable others : callback → value → bool.

(** The provider's callbacks throw exactly when reading the property of
    their argument does. *)
Definition raises (cb : callback) (data : value) : bool :=
  if decide (cb = on_connection) then bool_decide (get_prop data "status" = None)
  else if decide (cb = on_online_users)
       then bool_decide (get_prop data "count" = None)
       else others cb data.

(** [useState('disconnected')] and [useState(0)]. *)
Record State := mkState {
  connectionStatus : value;
  onlineUsers : value;
}.

Definition initial : State :=
  {| connectionStatus := VStr "disconnected"; onlineUsers := VNum 0 |}.

(** One call of a callback, as the provider's state sees it. *)
Definition receive (s : State) (c : callback * value) : State :=
  if decide (c.1 = on_connection) then
    match get_prop c.2 "status" with
    | Some v => {| connectionStatus := v; onlineUsers := onlineUsers s |}
    | None => s
    end
  else if decide (c.1 = on_online_users) then
    match get_prop c.2 "count" with
    | Some v => {| connectionStatus := connectionStatus s; onlineUsers := v |}
    | None => s
    end
  else s.

(** The provider's state after the calls [made]. *)
Definition shown (s : State) (made : list (callback * value)) : State :=
  foldl receive s made.

(** The body of the effect; [token] is [authContext?.user?.token]. *)
Definition effect (token : option string) (w : World) : World :=
  match token with
  | Some t =>
      if decide (t = "") then w
      else subscribe "online_users" on_online_users
             (subscribe "connection" on_connection (connect t w))
  | None => w
  end.

(** The function the effect returns. *)
Definition cleanup (w : World) : World :=
  disconnect
    (unsubscribe "online_users" on_online_users
       (unsubscribe "connection" on_connection w)).
End Provider.

End RealtimeProvider.


(** ** [class NotificationService] (the notification queue) *)

Module NotificationService.
Import JS.

(** [Notification['type']] *)
Inductive NotificationType := TSuccess | TError | TWarning | TInfo.

(** [interface Notification] of [src/types/index.ts].  [timestamp] is the
    [Date] as milliseconds; an optional property that is missing or
    [undefined] is [None]. *)
Record Notification := mkNotification {
  id : string;
  type : NotificationType;
  message : string;
  details : option string;
  timestamp : Z;
  read : bool;
  persistent : option bool;
}.

(** The object [add] receives.  Its declared type,
    [Omit<Notification, 'id' | 'timestamp' | 'read'>], has the first four
    properties.  The objects that [success], [error], [warning] and [info]
    build by spreading their [options : Partial<Notification>] can carry
    [id], [timestamp] and [read] as well, and [add] spreads whatever it is
    given, so the last three fields record what the object holds for them
    ([None]: the property is not there). *)
Record NewNotification := mkNewNotification {
  n_type : NotificationType;
  n_message : string;
  n_details : option string;
  n_persistent : option bool;
  n_id : option string;
  n_timestamp : option Z;
  n_read : option bool;
}.

(** [Partial<Notification>]: every property may be missing ([None]).  A
    property that is there holds a value of its type in [Notification]; for
    the two properties that are optional in [Notification] that value may
    be [undefined] ([Some None]). *)
Record Partial_Notification := mkPartial {
  o_id : option string;
  o_type : option NotificationType;
  o_message : option string;
  o_details : option (option string);
  o_timestamp : option Z;
  o_read : option bool;
  o_persistent : option (option bool);
}.

(** The default [options = {}]. *)
Definition no_options : Partial_Notification :=
  {| o_id := None; o_type := None; o_message := None; o_details := None;
     o_timestamp := None; o_read := None; o_persistent := None |}.

(** [{ ...base, ...options }]: a property of [options] replaces the one of
    [base]. *)
Definition spread (base : NewNotification) (options : Partial_Notification)
  : NewNotification :=
  {| n_type := default (n_type base) (o_type options);
     n_message := default (n_message base) (o_message options);
     n_details := default (n_details base) (o_details options);
     n_persistent := default (n_persistent base) (o_persistent options);
     n_id := match o_id options with Some i => Some i | None => n_id base end;
     n_timestamp := match o_timestamp options with
                    | Some t => Some t
                    | None => n_timestamp base
                    end;
     n_read := match o_read options with
               | Some r => Some r
               | None => n_read base
               end |}.

(** The private fields of the class. *)
Record Fields := mkFields {
  notifications : list Notification;
  subscribers : list callback;
}.

(** One queue in its environment: the pending timers (each runs
    [() => this.remove(id)] for the [id] it holds), the clock in
    milliseconds, and the calls made to subscriber callbacks, oldest first,
    each with the contents of the array it was handed at that moment. *)
Record World := mkWorld {
  this : Fields;
  timers : list (Z * string);
  clock : Z;
  calls : list (callback * list Notification);
}.

Definition new_NotificationService (now : Z) : World :=
  {| this := {| notifications := []; subscribers := [] |};
     timers := []; clock := now; calls := [] |}.

Definition set_notifications (l : list Notification) (w : World) : World :=
  {| this := {| notifications := l; subscribers := subscribers (this w) |};
     timers := timers w; clock := clock w; calls := calls w |}.

Definition set_subscribers (s : list callback) (w : World) : World :=
  {| this := {| notifications := notifications (this w); subscribers := s |};
     timers := timers w; clock := clock w; calls := calls w |}.

Definition set_timers (q : list (Z * string)) (w : World) : World :=
  {| this := this w; timers := q; clock := clock w; calls := calls w |}.

Definition set_clock (now : Z) (w : World) : World :=
  {| this := this w; timers := timers w; clock := now; calls := calls w |}.

Definition record_calls (made : list (callback * list Notification))
  (w : World) : World :=
  {| this := this w; timers := timers w; clock := clock w;
     calls := calls w ++ made |}.

(** [notification.read = true] *)
Definition set_read (b : bool) (n : Notification) : Notification :=
  {| id := id n; type := type n; message := message n; details := details n;
     timestamp := timestamp n; read := b; persistent := persistent n |}.

(** [!notification.persistent] is false exactly for [true]. *)
Definition truthy (p : option bool) : bool := default false p.

(** [Date.now().toString()] *)
Definition Date_now_toString (w : World) : string := pretty (clock w).

(** The ids in the queue, newest first. *)
Definition ids (w : World) : list string := id <$> notifications (this w).

Section Methods.
(** What the subscriber callbacks do when called. *)
Variable raises : callback → list Notification → bool.

(** [notifySubscribers()] *)
Definition notifySubscribers (w : World) : World * completion :=
  let '(made, c) := forEach raises (subscribers (this w))
                      (notifications (this w)) in
  (record_calls made w, c).

(** The object literal [{ id, timestamp: new Date(), read: false,
    ...notification }] of [add]. *)
Definition newNotification (notification : NewNotification) (w : World)
  : Notification :=
  {| id := default (Date_now_toString w) (n_id notification);
     type := n_type notification;
     message := n_message notification;
     details := n_details notification;
     timestamp := default (clock w) (n_timestamp notification);
     read := default false (n_read notification);
     persistent := n_persistent notification |}.

(** [add(notification)]; [None] when an exception leaves the method. *)
Definition add (notification : NewNotification) (w : World)
  : World * option string :=
  let id := Date_now_toString w in
  let w1 := set_notifications
              (newNotification notification w :: notifications (this w)) w in
  match notifySubscribers w1 with
  | (w2, Throw) => (w2, None)
  | (w2, Normal) =>
      (if truthy (n_persistent notification) then w2
       else set_timers (setTimeout (clock w2) id 5000 (timers w2)) w2,
       Some id)
  end.

(** [remove(id)] *)
Definition remove (i : string) (w : World) : World * completion :=
  notifySubscribers
    (set_notifications (filter (λ n, id n ≠ i) (notifications (this w))) w).

(** [markAsRead(id)] *)
Definition markAsRead (i : string) (w : World) : World * completion :=
  match list_find (λ n, id n = i) (notifications (this w)) with
  | Some (k, notification) =>
      notifySubscribers
        (set_notifications
           (<[k := set_read true notification]> (notifications (this w))) w)
  | None => (w, Normal)
  end.

(** [subscribe(callback)]; the function it returns is [unsubscribe]. *)
Definition subscribe (cb : callback) (w : World) : World :=
  set_subscribers (Set_add cb (subscribers (this w))) w.

Definition unsubscribe (cb : callback) (w : World) : World :=
  set_subscribers (Set_delete cb (subscribers (this w))) w.

(** [{ type: t, message }] *)
Definition plain (t : NotificationType) (message : string) : NewNotification :=
  {| n_type := t; n_message := message; n_details := None;
     n_persistent := None; n_id := None; n_timestamp := None;
     n_read := None |}.

(** [{ type: 'error', message, persistent: true }] *)
Definition persistent_error (message : string) : NewNotification :=
  {| n_type := TError; n_message := message; n_details := None;
     n_persistent := Some true; n_id := None; n_timestamp := None;
     n_read := None |}.

(** [success(message, options)] *)
Definition success (message : string) (options : Partial_Notification)
  : World → World * option string :=
  add (spread (plain TSuccess message) options).

(** [error(message, options)] *)
Definition error (message : string) (options : Partial_Notification)
  : World → World * option string :=
  add (spread (persistent_error message) options).

(** [warning(message, options)] *)
Definition warning (message : string) (options : Partial_Notification)
  : World → World * option string :=
  add (spread (plain TWarning message) options).

(** [info(message, options)] *)
Definition info (message : string) (options : Partial_Notification)
  : World → World * option string :=
  add (spread (plain TInfo message) options).

(** *** The environment: callers and the passage of time *)

Inductive event :=
| Add (notification : NewNotification)
| Success (message : string) (options : Partial_Notification)
| Error (message : string) (options : Partial_Notification)
| Warning (message : string) (options : Partial_Notification)
| Info (message : string) (options : Partial_Notification)
| Remove (i : string)
| MarkAsRead (i : string)
| Subscribe (cb : callback)
| Unsubscribe (cb : callback)
| Elapse (ms : Z).

(** A due timer runs [this.remove(id)]; an exception that leaves it is
    reported by the browser and changes nothing else. *)
Definition fire (w : World) (t : Z * string) : World := (remove t.2 w).1.

(** Time moves on by [ms] milliseconds and the timers that are due run. *)
Definition elapse (ms : Z) (w : World) : World :=
  let now := (clock w + Z.max 0 ms)%Z in
  foldl fire (set_timers (pending now (timers w)) (set_clock now w))
        (due now (timers w)).

(** One event; an exception that reaches the caller changes nothing else. *)
Definition step (w : World) (e : event) : World :=
  match e with
  | Add n => (add n w).1
  | Success m o => (success m o w).1
  | Error m o => (error m o w).1
  | Warning m o => (warning m o w).1
  | Info m o => (info m o w).1
  | Remove i => (remove i w).1
  | MarkAsRead i => (markAsRead i w).1
  | Subscribe cb => subscribe cb w
  | Unsubscribe cb => unsubscribe cb w
  | Elapse ms => elapse ms w
  end.

Definition run (w : World) (es : list event) : World := foldl step w es.

End Methods.


(** Subscribers none of which ever raises. *)
Definition quiet : callback → list Notification → bool := λ _ _, false.

(** Subscribers of which callback 0 raises whenever it is called. *)
Definition first_raises : callback → list Notification → bool :=
  λ cb _, bool_decide (cb = 0%nat).

(** *** Reading a run

    What the properties below say about an event, read from the event and
    the state it meets. *)

(** The object an event hands to [add], if it is a call of [add], [success],
    [error], [warning] or [info]. *)
Definition argument (e : event) : option NewNotification :=
  match e with
  | Add n => Some n
  | Success m o => Some (spread (plain TSuccess m) o)
  | Error m o => Some (spread (persistent_error m) o)
  | Warning m o => Some (spread (plain TWarning m) o)
  | Info m o => Some (spread (plain TInfo m) o)
  | _ => None
  end.

(** The id of the notification the event puts in the queue. *)
Definition inserted_id (w : World) (e : event) : option string :=
  (λ n, id (newNotification n w)) <$> argument e.

(** The ids the event removes: the one given to [remove], and those of the
    timers that run when time moves on. *)
Definition removed_ids (w : World) (e : event) : list string :=
  match e with
  | Remove i => [i]
  | Elapse ms => (due (clock w + Z.max 0 ms)%Z (timers w)).*2
  | _ => []
  end.

(** In a run that starts at time [now]: there is no [remove(i)], and no
    call of [add] (or of [success], ...) is made at the clock reading whose
    text is [i] or is handed [i] as an id. *)
Fixpoint undisturbed (i : string) (now : Z) (es : list event) : bool :=
  match es with
  | [] => true
  | Elapse ms :: rest => undisturbed i (now + Z.max 0 ms)%Z rest
  | Remove j :: rest => bool_decide (j ≠ i) && undisturbed i now rest
  | e :: rest =>
      match argument e with
      | Some n =>
          bool_decide (pretty now ≠ i) && bool_decide (n_id n ≠ Some i)
          && undisturbed i now rest
      | None => undisturbed i now rest
      end
  end.

(** In a run that starts at time [now]: no call of [add] (or of [success],
    ...) is handed an id, and each is made at a clock reading that is at
    least [free] and later than that of every call of [add] before it. *)
Fixpoint adds_spaced (free now : Z) (es : list event) : bool :=
  match es with
  | [] => true
  | Elapse ms :: rest => adds_spaced free (now + Z.max 0 ms)%Z rest
  | e :: rest =>
      match argument e with
      | Some n =>
          bool_decide (n_id n = None) && bool_decide (free ≤ now)%Z
          && adds_spaced (now + 1)%Z now rest
      | None => adds_spaced free now rest
      end
  end.

(** *** What subscribers are handed *)

(** The lists that the timers [fired] fan out, one after the other, when
    the queue holds [l]. *)
Fixpoint removals (l : list Notification) (fired : list (Z * string))
  : list (list Notification) :=
  match fired with
  | [] => []
  | t :: rest =>
      filter (λ n, id n ≠ t.2) l :: removals (filter (λ n, id n ≠ t.2) l) rest
  end.

(** The lists an event fans out, in order: the list with the new
    notification for a call of [add], the list without the removed ones for
    [remove] and for each timer that runs, the list with the flag set for a
    [markAsRead] that finds its notification, and none otherwise. *)
Definition fanned_out (w : World) (e : event) : list (list Notification) :=
  match e with
  | Remove i => [filter (λ n, id n ≠ i) (notifications (this w))]
  | MarkAsRead i =>
      match list_find (λ n, id n = i) (notifications (this w)) with
      | Some (k, n) => [<[k := set_read true n]> (notifications (this w))]
      | None => []
      end
  | Subscribe _ | Unsubscribe _ => []
  | Elapse ms =>
      removals (notifications (this w))
        (due (clock w + Z.max 0 ms)%Z (timers w))
  | _ =>
      match argument e with
      | Some a => [newNotification a w :: notifications (this w)]
      | None => []
      end
  end.

(** Each of [lists] handed to each of [subs], list by list. *)
Definition fan (lists : list (list Notification)) (subs : list callback)
  : list (callback * list Notification) :=
  lists ≫= λ l, (λ cb, (cb, l)) <$> subs.

(** The lists handed to [cb] by the calls [made], oldest first. *)
Definition deliveries (cb : callback)
  (made : list (callback * list Notification)) : list (list Notification) :=
  (filter (λ c, c.1 = cb) made).*2.

(** The handle of [cb] is not invoked in the run. *)
Definition stays_subscribed (cb : callback) (es : list event) : Prop :=
  Forall (λ e, e ≠ Unsubscribe cb) es.

End NotificationService.

(** ** [class APIService] (the HTTP request wrapper) *)

Module APIService.
Import JS.

(** [CONFIG.API_BASE_URL] when [REACT_APP_API_URL] is not set. *)
Definition API_BASE_URL : string := "https://api.blinddinner.com/v1".

(** [a || b] for a string property that may be missing: the empty string
    and [undefined] are falsy. *)
Definition or_else (a : option string) (b : string) : string :=
  match a with
  | Some s => if decide (s = "") then b else s
  | None => b
  end.

(** What a [catch] clause of the source receives, read as the source reads
    it, through [message]: an error of the platform (the [TypeError] or
    [SyntaxError] that [fetch], [response.json()] or a property read of
    [null] throws), or the [APIError] that [request] builds.  The [name]
    and the [data] of an [APIError], which nothing reads, are left out. *)
Inductive Thrown :=
| PlatformError (message : string)
| APIError (message : string) (status : Z).

(** [(error as Error).message] *)
Definition message (e : Thrown) : string :=
  match e with
  | PlatformError m => m
  | APIError m _ => m
  end.

(** The parsed body of a response that is not [ok].  It is of type [any]
    and is read once, as [data.message], which [APIError]'s constructor
    declares a [string]: the body is [null] (the read throws the
    [TypeError] with the message given), or it is anything else and
    [message] is what the read gives ([None]: [undefined]). *)
Inductive ErrorBody :=
| NullBody (type_error : string)
| Body (message : option string).

(** How [fetch(url, config)] and [response.json()] end.  [T] is the type
    declared for the body of a response that is [ok]. *)
Inductive Fetched (T : Type) :=
| FetchRejects (error : string)              (* [await fetch(..)] throws *)
| JsonRejects (error : string)       (* [await response.json()] throws *)
| NotOk (status : Z) (data : ErrorBody)      (* [!response.ok] *)
| Ok (data : T).
Arguments FetchRejects {T} error.
Arguments JsonRejects {T} error.
Arguments NotOk {T} status data.
Arguments Ok {T} data.

(** How a promise settles. *)
Inductive Settled (T : Type) :=
| Resolved (data : T)
| Rejected (error : Thrown).
Arguments Resolved {T} data.
Arguments Rejected {T} error.

(** [console.error(`API Error [${endpoint}]:`, error)] *)
Inductive LogLine :=
| LogAPIError (endpoint : string) (error : Thrown).

Record Fields := mkFields {
  baseURL : string;
  token : option string;
}.

(** [new APIService()]; [stored] is [localStorage.getItem('auth_token')]. *)
Definition new_APIService (stored : option string) : Fields :=
  {| baseURL := API_BASE_URL; token := stored |}.

(** [setToken(token)] *)
Definition setToken (t : string) (this : Fields) : Fields :=
  {| baseURL := baseURL this; token := Some t |}.

(** [generateRequestId()]; [now] is [Date.now()] and [random] the text
    [Math.random().toString(36).substr(2, 9)]. *)
Definition generateRequestId (now : Z) (random : string) : string :=
  "req_" +:+ pretty now +:+ "_" +:+ random.

(** The [options] the methods of the class hand to [request]: [method] and
    [body], or neither.  None of them passes [headers].  [body] is the
    object handed to [JSON.stringify]. *)
Record RequestInit := mkRequestInit {
  method : option string;
  body : option value;
}.

(** [options = {}] *)
Definition no_init : RequestInit := {| method := None; body := None |}.

(** The arguments of [fetch]: [url] and [config]. *)
Record Request := mkRequest {
  url : string;
  headers : list (string * string);
  init : RequestInit;
}.

(** [this.token ? `Bearer ${this.token}` : ''] *)
Definition Authorization (this : Fields) : string :=
  match token this with
  | Some t => if decide (t = "") then "" else "Bearer " +:+ t
  | None => ""
  end.

(** [request(endpoint, options)] up to its first [await]: the call of
    [fetch]. *)
Definition request_fetch (endpoint : string) (options : RequestInit)
  (now : Z) (random : string) (this : Fields) : Request :=
  {| url := baseURL this +:+ endpoint;
     headers := [("Content-Type", "application/json");
                 ("Authorization", Authorization this);
                 ("X-Client-Version", "2.1.0");
                 ("X-Request-ID", generateRequestId now random)];
     init := options |}.

(** The rest of [request(endpoint, options)], once [fetch] has ended as
    [o]: how the promise settles and what is written to the console. *)
Definition request {T} (endpoint : string) (o : Fetched T)
  : Settled T * list LogLine :=
  let tried :=
    match o with
    | FetchRejects m | JsonRejects m => Rejected (PlatformError m)
    | NotOk status (NullBody m) => Rejected (PlatformError m)
    | NotOk status (Body m) =>
        Rejected (APIError (or_else m "Request failed") status)
    | Ok data => Resolved data
    end in
  match tried with
  | Rejected e => (Rejected e, [LogAPIError endpoint e])
  | Resolved data => (Resolved data, [])
  end.

(** The calls the providers make.  [.._fetch] is the call up to the
    [fetch], the function named as in the source is the rest of it. *)
Definition login_fetch (email password : string)
  : Z → string → Fields → Request :=
  request_fetch "/auth/login"
    {| method := Some "POST";
       body := Some (VObj [("email", VStr email);
                           ("password", VStr password)]) |}.

Definition login {T} : Fetched T → Settled T * list LogLine :=
  request "/auth/login".

Definition register_fetch (userData : value)
  : Z → string → Fields → Request :=
  request_fetch "/auth/register"
    {| method := Some "POST"; body := Some userData |}.

Definition register {T} : Fetched T → Settled T * list LogLine :=
  request "/auth/register".

Definition getProfile_fetch : Z → string → Fields → Request :=
  request_fetch "/users/profile" no_init.

Definition getProfile {T} : Fetched T → Settled T * list LogLine :=
  request "/users/profile".

Definition updateProfile_fetch (data : value)
  : Z → string → Fields → Request :=
  request_fetch "/users/profile"
    {| method := Some "PATCH"; body := Some data |}.

Definition updateProfile {T} : Fetched T → Settled T * list LogLine :=
  request "/users/profile".

End APIService.


(** ** [AuthProvider] (the session) *)

Module AuthProvider.
Import JS.

(** [interface APIResponse<T>] *)
Record APIResponse (T : Type) := mkAPIResponse {
  response_success : bool;
  response_data : option T;
  response_message : option string;
  response_error : option string;
}.
Arguments mkAPIResponse {T} _ _ _ _.
Arguments response_success {T} _.
Arguments response_data {T} _.
Arguments response_message {T} _.
Arguments response_error {T} _.

(** [{token: string; user: User}], the [data] of the responses to [login]
    and [register]. *)
Record Session (User : Type) := mkSession {
  session_token : string;
  session_user : User;
}.
Arguments mkSession {User} _ _.
Arguments session_token {User} _.
Arguments session_user {User} _.

(** [interface AuthResult] *)
Record AuthResult (User : Type) := mkAuthResult {
  success : bool;
  error : option string;
  result_user : option User;
  result_token : option string;
}.
Arguments mkAuthResult {User} _ _ _ _.
Arguments success {User} _.
Arguments error {User} _.
Arguments result_user {User} _.
Arguments result_token {User} _.

(** The lines written to the console. *)
Inductive LogLine :=
| LogAPI (line : APIService.LogLine)
| LogFailedToLoadUser (error : APIService.Thrown).

(** The provider's state, the [APIService] it holds, the item
    ['auth_token'] of [localStorage], the console, and the requests handed
    to [fetch] so far. *)
Record State (User : Type) := mkState {
  user : option User;             (* [useState<User | null>(null)] *)
  loading : bool;                 (* [useState(true)] *)
  token : option string;  (* [useState(localStorage.getItem('auth_token'))] *)
  apiService : APIService.Fields; (* [useRef(new APIService())] *)
  auth_token : option string;     (* [localStorage.getItem('auth_token')] *)
  console : list LogLine;
  fetched : list APIService.Request;
}.
Arguments mkState {User} _ _ _ _ _ _ _.
Arguments user {User} _.
Arguments loading {User} _.
Arguments token {User} _.
Arguments apiService {User} _.
Arguments auth_token {User} _.
Arguments console {User} _.
Arguments fetched {User} _.

Section Provider.
(** [interface User]: the provider stores users and does not look inside
    them. *)
Context {User : Type}.

(** The first render; [stored] is what [localStorage] holds. *)
Definition initial (stored : option string) : State User :=
  {| user := None; loading := true; token := stored;
     apiService := APIService.new_APIService stored;
     auth_token := stored; console := []; fetched := [] |}.

Definition setUser (u : option User) (s : State User) : State User :=
  {| user := u; loading := loading s; token := token s;
     apiService := apiService s; auth_token := auth_token s;
     console := console s; fetched := fetched s |}.

Definition setLoading (b : bool) (s : State User) : State User :=
  {| user := user s; loading := b; token := token s;
     apiService := apiService s; auth_token := auth_token s;
     console := console s; fetched := fetched s |}.

Definition setToken (t : option string) (s : State User) : State User :=
  {| user := user s; loading := loading s; token := t;
     apiService := apiService s; auth_token := auth_token s;
     console := console s; fetched := fetched s |}.

Definition set_apiService (a : APIService.Fields) (s : State User)
  : State User :=
  {| user := user s; loading := loading s; token := token s;
     apiService := a; auth_token := auth_token s;
     console := console s; fetched := fetched s |}.

(** [localStorage.setItem('auth_token', t)] and, for [None],
    [localStorage.removeItem('auth_token')]. *)
Definition set_auth_token (t : option string) (s : State User) : State User :=
  {| user := user s; loading := loading s; token := token s;
     apiService := apiService s; auth_token := t;
     console := console s; fetched := fetched s |}.

Definition log (lines : list LogLine) (s : State User) : State User :=
  {| user := user s; loading := loading s; token := token s;
     apiService := apiService s; auth_token := auth_token s;
     console := console s ++ lines; fetched := fetched s |}.

(** A call of [fetch] made through [apiService.current]. *)
Definition fetch (call : APIService.Fields → APIService.Request)
  (s : State User) : State User :=
  {| user := user s; loading := loading s; token := token s;
     apiService := apiService s; auth_token := auth_token s;
     console := console s; fetched := fetched s ++ [call (apiService s)] |}.

(** [isAuthenticated: !!user] *)
Definition isAuthenticated (s : State User) : bool :=
  bool_decide (is_Some (user s)).

(** [logout()] *)
Definition logout (s : State User) : State User :=
  setUser None (setToken None (set_auth_token None s)).

(** [loadUser()] up to its [await]. *)
Definition loadUser_fetch (now : Z) (random : string) (s : State User)
  : State User :=
  fetch (APIService.getProfile_fetch now random) s.

(** The rest of [loadUser()], once the request has ended as [o]. *)
Definition loadUser (o : APIService.Fetched User) (s : State User)
  : State User :=
  let '(settled, lines) := APIService.getProfile o in
  let s1 := log (LogAPI <$> lines) s in
  let s2 :=
    match settled with
    | APIService.Resolved userData => setUser (Some userData) s1
    | APIService.Rejected e => logout (log [LogFailedToLoadUser e] s1)
    end in
  setLoading false s2.

(** The body of the effect that depends on [token]. *)
Definition effect (now : Z) (random : string) (s : State User) : State User :=
  match token s with
  | Some t =>
      if decide (t = "") then setLoading false s
      else loadUser_fetch now random
             (set_apiService (APIService.setToken t (apiService s)) s)
  | None => setLoading false s
  end.

(** The rest of [login] and of [register] after the [await]: the two
    functions have the same text there. *)
Definition signed_in
  (settled : APIService.Settled (APIResponse (Session User))
             * list APIService.LogLine) (s : State User)
  : State User * AuthResult User :=
  let '(settled, lines) := settled in
  let s1 := log (LogAPI <$> lines) s in
  match settled with
  | APIService.Resolved response =>
      match response_data response with
      | Some data =>
          let newToken := session_token data in
          let userData := session_user data in
          (setUser (Some userData)
             (setToken (Some newToken) (set_auth_token (Some newToken) s1)),
           {| success := true; error := None;
              result_user := Some userData; result_token := Some newToken |})
      | None =>
          (s1, {| success := false;
                  error := Some "Invalid response from server";
                  result_user := None; result_token := None |})
      end
  | APIService.Rejected e =>
      (s1, {| success := false; error := Some (APIService.message e);
              result_user := None; result_token := None |})
  end.

(** [login(email, password)] up to its [await]. *)
Definition login_fetch (email password : string) (now : Z) (random : string)
  (s : State User) : State User :=
  fetch (APIService.login_fetch email password now random) s.

(** The rest of [login(email, password)]. *)
Definition login (o : APIService.Fetched (APIResponse (Session User)))
  (s : State User) : State User * AuthResult User :=
  signed_in (APIService.login o) s.

(** [register(userData)] up to its [await]. *)
Definition register_fetch (userData : value) (now : Z) (random : string)
  (s : State User) : State User :=
  fetch (APIService.register_fetch userData now random) s.

(** The rest of [register(userData)]. *)
Definition register (o : APIService.Fetched (APIResponse (Session User)))
  (s : State User) : State User * AuthResult User :=
  signed_in (APIService.register o) s.

(** [updateProfile(updates)] up to its [await]. *)
Definition updateProfile_fetch (updates : value) (now : Z) (random : string)
  (s : State User) : State User :=
  fetch (APIService.updateProfile_fetch updates now random) s.

(** The rest of [updateProfile(updates)]. *)
Definition updateProfile (o : APIService.Fetched User) (s : State User)
  : State User * AuthResult User :=
  let '(settled, lines) := APIService.updateProfile o in
  let s1 := log (LogAPI <$> lines) s in
  match settled with
  | APIService.Resolved updatedUser =>
      (setUser (Some updatedUser) s1,
       {| success := true; error := None;
          result_user := Some updatedUser; result_token := None |})
  | APIService.Rejected e =>
      (s1, {| success := false; error := Some (APIService.message e);
              result_user := None; result_token := None |})
  end.

(** *** The environment: callers, the network and React

    A call of an [async] function is two events, the call up to its
    [await] and the rest of it when the request has ended.  React runs the
    effect after a render in which [token] has changed.  A run is any
    sequence of these events: the runs of the application are among
    them. *)
Inductive event :=
| Effect (now : Z) (random : string)
| LoadUserSettled (o : APIService.Fetched User)
| Login (email password : string) (now : Z) (random : string)
| LoginSettled (o : APIService.Fetched (APIResponse (Session User)))
| Register (userData : value) (now : Z) (random : string)
| RegisterSettled (o : APIService.Fetched (APIResponse (Session User)))
| Logout
| UpdateProfile (updates : value) (now : Z) (random : string)
| UpdateProfileSettled (o : APIService.Fetched User).

Definition step (s : State User) (e : event) : State User :=
  match e with
  | Effect now random => effect now random s
  | LoadUserSettled o => loadUser o s
  | Login email password now random => login_fetch email password now random s
  | LoginSettled o => (login o s).1
  | Register userData now random => register_fetch userData now random s
  | RegisterSettled o => (register o s).1
  | Logout => logout s
  | UpdateProfile updates now random =>
      updateProfile_fetch updates now random s
  | UpdateProfileSettled o => (updateProfile o s).1
  end.

Definition run (s : State User) (es : list event) : State User :=
  foldl step s es.

(** *** Reading a run *)

(** The session a response to [login] or [register] carries, if any. *)
Definition session_of (o : APIService.Fetched (APIResponse (Session User)))
  : option (Session User) :=
  match o with
  | APIService.Ok response => response_data response
  | _ => None
  end.

(** [e] is a [login] or a [register] that the server answers with a
    session. *)
Definition signs_in (e : event) : bool :=
  match e with
  | LoginSettled o | RegisterSettled o => bool_decide (is_Some (session_of o))
  | _ => false
  end.

(** The requests made from state [s] on, in a later state [s']. *)
Definition fetched_since (s s' : State User) : list APIService.Request :=
  drop (length (fetched s)) (fetched s').

(** Signed out since [s0], with [t] still held by the [APIService]: no
    token is stored, and the requests made since [s0] carry [t]. *)
Definition signed_out (t : string) (s0 s : State User) : Prop :=
  auth_token s = None
  ∧ token s = None
  ∧ APIService.token (apiService s) = Some t
  ∧ ∃ more,
      fetched s = fetched s0 ++ more
      ∧ Forall (λ r, ("Authorization", "Bearer " +:+ t)
                     ∈ APIService.headers r) more.

End Provider.

End AuthProvider.


(** ** [LoginScreen] and [MainContent] (the screens) *)

Module LoginScreen.
Import JS.

(** What [handleSubmit] leaves behind. *)
Record Submitted (User : Type) := mkSubmitted {
  auth : AuthProvider.State User;
  currentView : string;
  loading : bool;
  notify : NotificationService.World;
  completion : JS.completion;
}.
Arguments mkSubmitted {User} _ _ _ _ _.
Arguments auth {User} _.
Arguments currentView {User} _.
Arguments loading {User} _.
Arguments notify {User} _.
Arguments completion {User} _.

Section Screen.
Context {User : Type}.
(** [raises cb l]: the call [cb(l)] of a subscriber of the queue throws. *)
Variable raises : callback → list NotificationService.Notification → bool.

(** The [try] block of [handleSubmit] after the [await]. *)
Definition answered (result : AuthProvider.AuthResult User) (view : string)
  (q : NotificationService.World)
  : string * NotificationService.World * JS.completion :=
  if AuthProvider.success result then
    match NotificationService.success raises
            "Welcome back! Setting up your dashboard..."
            NotificationService.no_options q with
    | (q1, Some _) => ("dashboard", q1, Normal)
    | (q1, None) => (view, q1, Throw)
    end
  else
    match NotificationService.error raises
            (APIService.or_else (AuthProvider.error result) "Login failed")
            NotificationService.no_options q with
    | (q1, Some _) => (view, q1, Normal)
    | (q1, None) => (view, q1, Throw)
    end.

(** The rest of [handleSubmit(e)], once the request of [login] has ended
    as [o]; [view] is the view shown and [q] the notification queue. *)
Definition handleSubmit
  (o : APIService.Fetched
         (AuthProvider.APIResponse (AuthProvider.Session User)))
  (s : AuthProvider.State User) (view : string)
  (q : NotificationService.World) : Submitted User :=
  let '(s1, result) := AuthProvider.login o s in
  let '(view1, q1, c) := answered result view q in
  match c with
  | Normal =>
      {| auth := s1; currentView := view1; loading := false; notify := q1;
         completion := Normal |}
  | Throw =>
      match NotificationService.error raises "An unexpected error occurred"
              NotificationService.no_options q1 with
      | (q2, Some _) =>
          {| auth := s1; currentView := view1; loading := false;
             notify := q2; completion := Normal |}
      | (q2, None) =>
          {| auth := s1; currentView := view1; loading := false;
             notify := q2; completion := Throw |}
      end
  end.

End Screen.

End LoginScreen.


Module MainContent.

Inductive Screen :=
| WelcomeScreen
| LoginScreen
| RegisterScreen
| Dashboard
| MatchingInterface
| RestaurantBooking
| MessagingInterface
| ProfileManagement
| SettingsPanel.

(** [renderView()] *)
Definition renderView (currentView : string) : Screen :=
  if decide (currentView = "welcome") then WelcomeScreen
  else if decide (currentView = "login") then LoginScreen
  else if decide (currentView = "register") then RegisterScreen
  else if decide (currentView = "dashboard") then Dashboard
  else if decide (currentView = "matches") then MatchingInterface
  else if decide (currentView = "restaurants") then RestaurantBooking
  else if decide (currentView = "messages") then MessagingInterface
  else if decide (currentView = "profile") then ProfileManagement
  else if decide (currentView = "settings") then SettingsPanel
  else WelcomeScreen.

(** The views that the handlers of a screen pass to [setCurrentView]:
    the buttons' [onClick] and, for the login screen, [handleSubmit]. *)
Definition links (s : Screen) : list string :=
  match s with
  | WelcomeScreen => ["register"; "login"]
  | LoginScreen => ["dashboard"; "register"]
  | RegisterScreen => ["welcome"]
  | Dashboard => ["matches"; "restaurants"; "messages"]
  | MatchingInterface | RestaurantBooking | MessagingInterface
  | ProfileManagement | SettingsPanel => ["dashboard"]
  end.

(** The effect of [BlindDinnerEnterprise] that depends on
    [isAuthenticated] and [loading]. *)
Definition effect (isAuthenticated loading : bool) (currentView : string)
  : string :=
  if isAuthenticated then "dashboard"
  else if negb loading then "welcome"
  else currentView.

(** What changes the view. *)
Inductive event :=
| Click (target : string)      (* a handler of the screen shown runs *)
| Effect (isAuthenticated loading : bool).

(** A handler can run only if the screen shown has it. *)
Definition step (currentView : string) (e : event) : string :=
  match e with
  | Click target =>
      if decide (target ∈ links (renderView currentView)) then target
      else currentView
  | Effect isAuthenticated loading =>
      effect isAuthenticated loading currentView
  end.

Definition run (currentView : string) (es : list event) : string :=
  foldl step currentView es.

(** [useState<string>('welcome')] *)
Definition initial : string := "welcome".

End MainContent.


(* ===================================================================== *)
(** * Part II. Properties                                                 *)
(* ===================================================================== *)

(** ** Sets, [forEach] and timers *)

Module JSFacts.
Import JS.

Lemma filter_keeps_all {A} (P : A → Prop) `{!∀ x, Decision (P x)}
  (l : list A) :
  Forall P l → filter P l = l.
Proof.
  induction 1 as [| x l Hx _ IH]; [done |].
  by rewrite filter_cons_True, IH.
Qed.

Lemma elem_of_Set_add (x cb : callback) (s : list callback) :
  x ∈ Set_add cb s ↔ x = cb ∨ x ∈ s.
Proof.
  unfold Set_add. case_decide as Hin.
  - split; [by right | intros [-> | ?]; done].
  - rewrite elem_of_app, list_elem_of_singleton. tauto.
Qed.

Lemma elem_of_Set_delete (x cb : callback) (s : list callback) :
  x ∈ Set_delete cb s ↔ x ≠ cb ∧ x ∈ s.
Proof. unfold Set_delete. by rewrite list_elem_of_filter. Qed.

Lemma Set_add_NoDup (cb : callback) (s : list callback) :
  NoDup s → NoDup (Set_add cb s).
Proof.
  intros Hs. unfold Set_add. case_decide as Hin; [done |].
  apply NoDup_app. split_and!; [done | | apply NoDup_singleton].
  intros x Hx ->%list_elem_of_singleton. done.
Qed.

Lemma Set_delete_NoDup (cb : callback) (s : list callback) :
  NoDup s → NoDup (Set_delete cb s).
Proof. apply NoDup_filter. Qed.

Lemma Set_delete_absent (cb : callback) (s : list callback) :
  cb ∉ s → Set_delete cb s = s.
Proof.
  intros Hcb. unfold Set_delete. induction s as [| x s IH]; [done |].
  rewrite filter_cons. apply not_elem_of_cons in Hcb as [Hne Hcb].
  case_decide; [by rewrite IH | congruence].
Qed.

Section ForEach.
Context {D : Type} (raises : callback → D → bool).

Lemma forEach_quiet (s : list callback) (d : D) :
  Forall (λ cb, raises cb d = false) s →
  forEach raises s d = ((λ cb, (cb, d)) <$> s, Normal).
Proof.
  induction 1 as [| cb s Hcb _ IH]; simpl; [done |].
  by rewrite Hcb, IH.
Qed.

Lemma forEach_Normal (s : list callback) (d : D) made :
  forEach raises s d = (made, Normal) →
  made = (λ cb, (cb, d)) <$> s ∧ Forall (λ cb, raises cb d = false) s.
Proof.
  revert made. induction s as [| cb s IH]; simpl; intros made Heq.
  - by inversion Heq.
  - destruct (raises cb d) eqn:Hcb; [done |].
    destruct (forEach raises s d) as [made' c] eqn:Hrest.
    inversion Heq; subst. destruct (IH _ eq_refl) as [-> Hall].
    split; [done | by constructor].
Qed.

Lemma forEach_Throw (s : list callback) (d : D) made :
  forEach raises s d = (made, Throw) →
  ∃ before bad after,
    s = before ++ bad :: after
    ∧ made = (λ cb, (cb, d)) <$> (before ++ [bad])
    ∧ raises bad d = true
    ∧ Forall (λ cb, raises cb d = false) before.
Proof.
  revert made. induction s as [| cb s IH]; simpl; intros made Heq; [done |].
  destruct (raises cb d) eqn:Hcb.
  - inversion Heq; subst. by exists [], cb, s.
  - destruct (forEach raises s d) as [made' c] eqn:Hrest.
    inversion Heq; subst.
    destruct (IH _ eq_refl) as (before & bad & after & -> & -> & Hbad & Hall).
    exists (cb :: before), bad, after. split_and!; try done. by constructor.
Qed.

(** Every call of a [forEach] hands over the same data, to members of the
    set, in the order of the set. *)
Lemma forEach_prefix (s : list callback) (d : D) :
  ∃ invoked skipped,
    s = invoked ++ skipped
    ∧ (forEach raises s d).1 = (λ cb, (cb, d)) <$> invoked.
Proof.
  destruct (forEach raises s d) as [made c] eqn:Heq. destruct c.
  - apply forEach_Normal in Heq as [-> _]. exists s, []. by rewrite app_nil_r.
  - apply forEach_Throw in Heq as (before & bad & after & -> & -> & _).
    exists (before ++ [bad]), after. by rewrite <-app_assoc.
Qed.
End ForEach.

Lemma forEach_stops {D : Type} (raises : callback → D → bool)
  (s : list callback) (d : D) :
  stops_at_first_raise raises s d
    (forEach raises s d).1 (forEach raises s d).2.
Proof.
  unfold stops_at_first_raise.
  destruct (forEach raises s d) as [made []] eqn:Heq; simpl.
  - apply forEach_Normal in Heq as [-> Hall]. exists s, [].
    by rewrite app_nil_r.
  - apply forEach_Throw in Heq as (before & bad & after & -> & -> & ? & ?).
    exists (before ++ [bad]), after. rewrite <-app_assoc.
    split_and!; try done. by exists before, bad.
Qed.

Section Timers.
Context {A : Type}.

Lemma elem_of_enqueue (t u : Z * A) (q : list (Z * A)) :
  u ∈ enqueue t q ↔ u = t ∨ u ∈ q.
Proof.
  induction q as [| v q IH]; simpl.
  - rewrite list_elem_of_singleton, elem_of_nil. tauto.
  - case_match; rewrite !elem_of_cons; [tauto |]. rewrite IH. tauto.
Qed.

Lemma elem_of_setTimeout now (f : A) delay (u : Z * A) (q : list (Z * A)) :
  u ∈ setTimeout now f delay q ↔ u = ((now + Z.max 0 delay)%Z, f) ∨ u ∈ q.
Proof. apply elem_of_enqueue. Qed.
End Timers.

End JSFacts.

(** ** The push client *)

Module RealtimeFacts.
Import JS JSFacts RealtimeService.

(** *** The subscription registry *)

Lemma subscribers_subscribe k cb w k' :
  subscribers (this (subscribe k cb w)) !! k'
  = if decide (k' = k)
    then Some (Set_add cb (default [] (subscribers (this w) !! k)))
    else subscribers (this w) !! k'.
Proof.
  unfold subscribe; simpl. rewrite lookup_alter.
  destruct (subscribers (this w) !! k) as [s |] eqn:Hk;
    repeat case_decide; subst; try congruence.
  - by rewrite Hk.
  - by rewrite lookup_insert_eq.
  - by rewrite lookup_insert_ne.
Qed.

Lemma subscribers_unsubscribe k cb w k' :
  subscribers (this (unsubscribe k cb w)) !! k'
  = if decide (k' = k)
    then Set_delete cb <$> subscribers (this w) !! k
    else subscribers (this w) !! k'.
Proof.
  unfold unsubscribe; simpl. rewrite lookup_alter.
  repeat case_decide; subst; congruence.
Qed.

Lemma unsubscribe_absent k cb w :
  is_registered w cb k = false → unsubscribe k cb w = w.
Proof.
  unfold is_registered, unsubscribe. intros Hreg%bool_decide_eq_false.
  rewrite alter_id.
  - by destruct w as [[]].
  - intros s Hs. rewrite Hs in Hreg. by apply Set_delete_absent.
Qed.

Lemma is_registered_subscribe k cb w cb' k' :
  is_registered (subscribe k cb w) cb' k'
  = if decide (cb = cb') then mark k true (is_registered w cb') k'
    else is_registered w cb' k'.
Proof.
  unfold is_registered, mark. rewrite subscribers_subscribe.
  destruct (decide (cb = cb')) as [<- | Hcb];
    destruct (decide (k' = k)) as [-> | Hk]; simpl; try done.
  - apply bool_decide_eq_true. apply elem_of_Set_add. by left.
  - apply bool_decide_ext. rewrite elem_of_Set_add. naive_solver.
Qed.

Lemma is_registered_unsubscribe k cb w cb' k' :
  is_registered (unsubscribe k cb w) cb' k'
  = if decide (cb = cb') then mark k false (is_registered w cb') k'
    else is_registered w cb' k'.
Proof.
  unfold is_registered, mark. rewrite subscribers_unsubscribe.
  destruct (decide (cb = cb')) as [<- | Hcb];
    destruct (decide (k' = k)) as [-> | Hk]; simpl; try done.
  - apply bool_decide_eq_false.
    destruct (subscribers (this w) !! k); simpl;
      [rewrite elem_of_Set_delete; naive_solver | apply not_elem_of_nil].
  - apply bool_decide_ext.
    destruct (subscribers (this w) !! k); simpl; [| done].
    rewrite elem_of_Set_delete. naive_solver.
Qed.

Lemma registry_wf_subscribe k cb w :
  registry_wf w → registry_wf (subscribe k cb w).
Proof.
  intros Hwf k' s. rewrite subscribers_subscribe.
  case_decide; [| by apply Hwf]. intros [= <-]. apply Set_add_NoDup.
  destruct (subscribers (this w) !! k) eqn:Hk; simpl;
    [by eapply Hwf | apply NoDup_nil_2].
Qed.

Lemma registry_wf_unsubscribe k cb w :
  registry_wf w → registry_wf (unsubscribe k cb w).
Proof.
  intros Hwf k' s. rewrite subscribers_unsubscribe.
  case_decide; [| by apply Hwf].
  destruct (subscribers (this w) !! k) eqn:Hk; simpl; [| done].
  intros [= <-]. apply Set_delete_NoDup. by eapply Hwf.
Qed.

Lemma this_onEvent raises k d w :
  this (onEvent raises k d w).1 = this w.
Proof.
  unfold onEvent. destruct (subscribers (this w) !! k); [| done].
  by destruct (forEach raises _ d).
Qed.

Lemma registry_wf_onEvent raises k d w :
  registry_wf w → registry_wf (onEvent raises k d w).1.
Proof. unfold registry_wf. by rewrite this_onEvent. Qed.

Lemma registry_wf_new now : registry_wf (new_RealtimeService now).
Proof. intros k s. simpl. by rewrite lookup_empty. Qed.

(** Every state the registry can reach from a new client is well formed. *)
Lemma registry_wf_run raises ops now :
  registry_wf (registry_run raises (new_RealtimeService now) ops).
Proof.
  unfold registry_run.
  generalize (new_RealtimeService now), (registry_wf_new now).
  induction ops as [| [k c | k c | k d] ops IH]; intros w Hwf; simpl;
    [done | apply IH .. ].
  - by apply registry_wf_subscribe.
  - by apply registry_wf_unsubscribe.
  - by apply registry_wf_onEvent.
Qed.

Lemma received_app cb (l1 l2 : list (callback * value)) :
  received cb (l1 ++ l2) = received cb l1 ++ received cb l2.
Proof. unfold received. by rewrite filter_app, fmap_app. Qed.

(** What one quiet [forEach] hands to [cb]. *)
Lemma received_fan_out cb (s : list callback) (d : value) :
  NoDup s →
  received cb ((λ c, (c, d)) <$> s) = if bool_decide (cb ∈ s) then [d] else [].
Proof.
  unfold received. induction 1 as [| c s Hc Hs IH]; [done |].
  rewrite fmap_cons, filter_cons.
  destruct (decide ((c, d).1 = cb)) as [Heq | Hne]; cbn [fst] in *.
  - subst c. rewrite fmap_cons, IH; cbn [snd].
    rewrite (bool_decide_eq_true_2 (cb ∈ cb :: s)) by left.
    by rewrite (bool_decide_eq_false_2 (cb ∈ s)).
  - rewrite IH. apply (f_equal (λ b : bool, if b then [d] else [])).
    apply bool_decide_ext. rewrite elem_of_cons. naive_solver.
Qed.

Lemma owed_ext reg reg' cb ops :
  (∀ k, reg k = reg' k) → owed reg cb ops = owed reg' cb ops.
Proof.
  revert reg reg'. induction ops as [| [k c | k c | k d] ops IH];
    intros reg reg' Hext; simpl; [done | | |].
  - apply IH. intros k'. case_decide; [unfold mark; case_decide |]; auto.
  - apply IH. intros k'. case_decide; [unfold mark; case_decide |]; auto.
  - rewrite Hext. f_equal. by apply IH.
Qed.

Lemma calls_onEvent_quiet raises k d w :
  (∀ c x, raises c x = false) →
  calls (onEvent raises k d w).1
  = calls w ++ ((λ c, (c, d)) <$> default [] (subscribers (this w) !! k)).
Proof.
  intros Hquiet. unfold onEvent.
  destruct (subscribers (this w) !! k) as [s |]; simpl;
    [| by rewrite app_nil_r].
  rewrite forEach_quiet; [done |]. apply Forall_forall. auto.
Qed.

Lemma registry_run_received raises cb ops w :
  (∀ c d, raises c d = false) →
  registry_wf w →
  received cb (calls (registry_run raises w ops))
  = received cb (calls w) ++ owed (is_registered w cb) cb ops.
Proof.
  intros Hquiet. revert w.
  induction ops as [| [k c | k c | k d] ops IH]; intros w Hwf; simpl.
  - by rewrite app_nil_r.
  - rewrite IH by by apply registry_wf_subscribe. f_equal.
    apply owed_ext. intros k'. rewrite is_registered_subscribe.
    by repeat case_decide.
  - rewrite IH by by apply registry_wf_unsubscribe. f_equal.
    apply owed_ext. intros k'. rewrite is_registered_unsubscribe.
    by repeat case_decide.
  - rewrite IH by by apply registry_wf_onEvent.
    rewrite calls_onEvent_quiet, received_app, <-app_assoc by done.
    f_equal. f_equal.
    + rewrite received_fan_out; [done |].
      destruct (subscribers (this w) !! k) eqn:Hk; simpl;
        [by eapply Hwf | apply NoDup_nil_2].
    + apply owed_ext. intros k'. unfold is_registered.
      by rewrite this_onEvent.
Qed.

(** C2 (as amended): when no callback raises, over every sequence of
    subscribe, unsubscribe and dispatch operations a callback is invoked for
    exactly the dispatches of a key made while it is registered under that
    key, once each and in order; the handle returned by
    [subscribe(key, callback)] removes that callback from that key and leaves
    every other callback and key as it was; invoked when the callback is not
    registered it changes nothing. *)
Theorem registry_delivers_while_registered
  (raises : callback → value → bool) (w : World) (ops : list registry_op)
  (cb : callback) (key : string) :
  (∀ c d, raises c d = false) →
  registry_wf w →
  received cb (calls (registry_run raises w ops))
  = received cb (calls w) ++ owed (is_registered w cb) cb ops
  ∧ (∀ cb' key',
       is_registered (unsubscribe key cb w) cb' key'
       = if decide (cb' = cb ∧ key' = key) then false
         else is_registered w cb' key')
  ∧ (∀ s, subscribers (this w) !! key = Some s →
          subscribers (this (unsubscribe key cb w)) !! key
          = Some (filter (λ c, c ≠ cb) s))
  ∧ (is_registered w cb key = false → unsubscribe key cb w = w).
Proof.
  intros Hquiet Hwf. split_and!.
  - by apply registry_run_received.
  - intros cb' key'. rewrite is_registered_unsubscribe. unfold mark.
    repeat case_decide; naive_solver.
  - intros s Hs. rewrite subscribers_unsubscribe, Hs.
    by rewrite decide_True.
  - apply unsubscribe_absent.
Qed.

Lemma registry_delivers_while_registered_witness :
  let quiet : callback → value → bool := λ _ _, false in
  let ops := [Sub "online_users" 1; Dispatch "online_users" (VNum 3);
              Unsub "online_users" 1; Dispatch "online_users" (VNum 4)] in
  (∀ c d, quiet c d = false)
  ∧ registry_wf (new_RealtimeService 0)
  ∧ received 1 (calls (registry_run quiet (new_RealtimeService 0) ops))
    = [VNum 3].
Proof.
  split_and!; [done | apply registry_wf_new |].
  apply (registry_delivers_while_registered
           (λ _ _, false) (new_RealtimeService 0)
           [Sub "online_users" 1; Dispatch "online_users" (VNum 3);
            Unsub "online_users" 1; Dispatch "online_users" (VNum 4)]
           1 "online_users");
    [done | apply registry_wf_new].
Defined.

(** C2 as stated fails: callback 1 is registered under the key when the
    dispatch is made, and is owed its data, but callback 0, registered
    before it, raises, and callback 1 is never invoked. *)
Lemma registered_callback_misses_dispatch :
  let raises : callback → value → bool := λ cb _, bool_decide (cb = 0%nat) in
  let ops := [Sub "online_users" 0; Sub "online_users" 1;
              Dispatch "online_users" (VNum 3)] in
  let w := registry_run raises (new_RealtimeService 0) ops in
  is_registered w 1 "online_users" = true
  ∧ owed (is_registered (new_RealtimeService 0) 1) 1 ops = [VNum 3]
  ∧ received 1 (calls w) = []
  ∧ calls w = [(0%nat, VNum 3)].
Proof. by vm_compute. Qed.

(** *** [send] *)

Lemma serializable_envelope (type : string) (payload : value) :
  JSON_stringify (VObj [("type", VStr type); ("payload", payload)])
  = if serializable payload
    then Some (VObj [("type", VStr type); ("payload", payload)])
    else None.
Proof.
  unfold JSON_stringify. simpl. rewrite andb_true_r.
  by destruct (serializable payload).
Qed.

Lemma connected_spec (w : World) :
  connected w = true
  ↔ ∃ r s, ws (this w) = Some r ∧ heap w !! r = Some s ∧ readyState s = OPEN.
Proof.
  unfold connected. split.
  - destruct (ws (this w)) as [r |]; [| done].
    destruct (heap w !! r) as [s |] eqn:Hs; [| done].
    intros Hopen%bool_decide_eq_true. by exists r, s.
  - intros (r & s & -> & -> & Hopen). by apply bool_decide_eq_true.
Qed.

(** C3 (as amended): the client is connected when [this.ws] is set and that
    socket is open.  A [send(type, payload)] of a connected client whose
    payload [JSON.stringify] accepts hands the envelope [{type, payload}]
    to that socket and changes nothing else.  When [JSON.stringify] does
    not accept the payload, the [send] of a connected client throws and
    changes nothing.  A [send] of a client that is not connected returns
    and changes nothing at all: nothing is written to any socket, nothing
    is queued or scheduled.  So something is transmitted only if the
    client is connected and the payload can be serialized. *)
Theorem send_transmits_iff_connected_and_serializable
  (type : string) (payload : value) (w : World) :
  (connected w = true
   ↔ ∃ r s,
       ws (this w) = Some r ∧ heap w !! r = Some s ∧ readyState s = OPEN)
  ∧ (connected w = true → serializable payload = true →
     ∃ r s,
       ws (this w) = Some r ∧ heap w !! r = Some s ∧ readyState s = OPEN
       ∧ (send type payload w).2 = Normal
       ∧ heap (send type payload w).1 !! r
         = Some {| url := url s; readyState := OPEN;
                   sent := sent s ++ [VObj [("type", VStr type);
                                            ("payload", payload)]] |}
       ∧ (∀ r', r' ≠ r →
                heap (send type payload w).1 !! r' = heap w !! r')
       ∧ this (send type payload w).1 = this w
       ∧ timers (send type payload w).1 = timers w
       ∧ clock (send type payload w).1 = clock w
       ∧ console (send type payload w).1 = console w
       ∧ calls (send type payload w).1 = calls w)
  ∧ (connected w = true → serializable payload = false →
     send type payload w = (w, Throw))
  ∧ (connected w = false → send type payload w = (w, Normal))
  ∧ ((send type payload w).1 ≠ w →
     connected w = true ∧ serializable payload = true).
Proof.
  split; [apply connected_spec |].
  unfold send. rewrite serializable_envelope.
  split_and!.
  - intros Hc Hser. rewrite Hc, Hser.
    apply connected_spec in Hc as (r & s & Hws & Hs & Hopen).
    rewrite Hws. exists r, s. split_and!; try done; simpl.
    + rewrite list_lookup_alter_eq, Hs. simpl. unfold WebSocket_send.
      by rewrite Hopen.
    + intros r' Hne. by rewrite list_lookup_alter_ne.
  - intros Hc Hser. rewrite Hc, Hser.
    by apply connected_spec in Hc as (r & s & -> & _).
  - by intros ->.
  - destruct (connected w); [| by intros []].
    destruct (serializable payload); [done |].
    by destruct (ws (this w)); intros [].
Qed.

(** C3 as stated fails: a connected client is handed a payload with a
    [BigInt] in it; [send] throws, and the socket is handed nothing. *)
Lemma connected_send_of_a_bigint_throws :
  let w := run (λ _ _, false) (new_RealtimeService 0)
             [Connect "tok"; SocketOpen 0] in
  connected w = true
  ∧ send "like" (VObj [("count", VBigInt 1)]) w = (w, Throw)
  ∧ sent <$> heap w = [[]].
Proof. by vm_compute. Qed.

(** *** [disconnect] and the reconnect policy *)

Lemma heap_fired (fired : list (Z * unit)) w :
  heap (foldl (λ w' _, reconnect_timer w') w fired) = heap w.
Proof.
  revert w. induction fired as [| t fired IH]; intros w; simpl; [done |].
  by rewrite IH.
Qed.

Lemma heap_elapse ms w : heap (elapse ms w) = heap w.
Proof. unfold elapse. by rewrite heap_fired. Qed.

Lemma heap_onEvent raises k d w : heap (onEvent raises k d w).1 = heap w.
Proof.
  unfold onEvent. destruct (subscribers (this w) !! k); [| done].
  by destruct (forEach raises _ d).
Qed.

Lemma heap_handleReconnect w : heap (handleReconnect w) = heap w.
Proof. unfold handleReconnect. by case_match. Qed.

Lemma heap_onmessage raises parsed w :
  heap (onmessage raises parsed w) = heap w.
Proof.
  unfold onmessage. repeat case_match; simplify_eq; try done.
  all: match goal with
       | H : onEvent _ ?k ?d ?w = (?w', _) |- _ =>
           change w' with (w', Normal).1; rewrite <-(heap_onEvent raises k d w);
           by rewrite H
       end.
Qed.

(** Only [connect] constructs a socket. *)
Lemma heap_length_step raises w e :
  match e with Connect _ => False | _ => True end →
  length (heap (step raises w e)) = length (heap w).
Proof.
  destruct e; simpl; intros He; try done.
  - unfold send. repeat case_match; try done. simpl. apply length_alter.
  - unfold disconnect. case_match; [| done]. simpl. apply length_alter.
  - repeat case_match; try done. unfold onopen.
    rewrite heap_onEvent. simpl. by rewrite length_alter.
  - repeat case_match; try done. by rewrite heap_onmessage.
  - repeat case_match; try done; unfold onclose;
      rewrite heap_handleReconnect; simpl; by rewrite length_alter.
  - by repeat case_match.
  - by rewrite heap_elapse.
Qed.

Lemma heap_length_run raises es w :
  no_connect es → length (heap (run raises w es)) = length (heap w).
Proof.
  unfold run, no_connect. revert w.
  induction es as [| e es IH]; intros w Hes; simpl; [done |].
  apply Forall_cons in Hes as [He Hes].
  rewrite IH by done. by apply heap_length_step.
Qed.

Lemma this_fired (fired : list (Z * unit)) w :
  this (foldl (λ w' _, reconnect_timer w') w fired) = this w.
Proof.
  revert w. induction fired as [| t fired IH]; intros w; simpl; [done |].
  by rewrite IH.
Qed.

Lemma this_elapse ms w : this (elapse ms w) = this w.
Proof. unfold elapse. by rewrite this_fired. Qed.

Lemma this_onmessage raises parsed w :
  this (onmessage raises parsed w) = this w.
Proof.
  unfold onmessage. repeat case_match; simplify_eq; try done.
  all: match goal with
       | H : onEvent _ ?k ?d ?w = (?w', _) |- _ =>
           change w' with (w', Normal).1; rewrite <-(this_onEvent raises k d w);
           by rewrite H
       end.
Qed.

Lemma ws_handleReconnect w : ws (this (handleReconnect w)) = ws (this w).
Proof. unfold handleReconnect. by case_match. Qed.

(** Only [connect] sets [this.ws]. *)
Lemma ws_None_step raises w e :
  match e with Connect _ => False | _ => True end →
  ws (this w) = None → ws (this (step raises w e)) = None.
Proof.
  destruct e; simpl; intros He Hws; try done.
  - unfold send. by repeat case_match.
  - unfold disconnect. by rewrite Hws.
  - repeat case_match; try done. unfold onopen. by rewrite this_onEvent.
  - repeat case_match; try done. by rewrite this_onmessage.
  - repeat case_match; try done; unfold onclose;
      by rewrite ws_handleReconnect.
  - by repeat case_match.
  - by rewrite this_elapse.
Qed.

Lemma ws_None_run raises es w :
  no_connect es → ws (this w) = None → ws (this (run raises w es)) = None.
Proof.
  unfold run, no_connect. revert w.
  induction es as [| e es IH]; intros w Hes Hws; simpl; [done |].
  apply Forall_cons in Hes as [He Hes].
  apply IH; [done |]. by apply ws_None_step.
Qed.

(** The counter stays between 0 and the cap, and the cap stays 5. *)
Lemma attempts_capped_step raises w e :
  (0 ≤ reconnectAttempts (this w) ≤ maxReconnectAttempts (this w))%Z →
  (0 ≤ reconnectAttempts (this (step raises w e))
     ≤ maxReconnectAttempts (this (step raises w e)))%Z
  ∧ maxReconnectAttempts (this (step raises w e))
    = maxReconnectAttempts (this w).
Proof.
  intros Hcap.
  assert (∀ w', (0 ≤ reconnectAttempts (this w')
                   ≤ maxReconnectAttempts (this w'))%Z →
                (0 ≤ reconnectAttempts (this (handleReconnect w'))
                   ≤ maxReconnectAttempts (this (handleReconnect w')))%Z
                ∧ maxReconnectAttempts (this (handleReconnect w'))
                  = maxReconnectAttempts (this w')) as Hhr.
  { intros w' Hw'. unfold handleReconnect.
    destruct (Z.ltb_spec (reconnectAttempts (this w'))
                (maxReconnectAttempts (this w'))); simpl; split; lia. }
  destruct e; simpl.
  - unfold connect. case_match; done.
  - done.
  - done.
  - unfold send. by repeat case_match.
  - unfold disconnect. by case_match.
  - repeat case_match; try done. unfold onopen. rewrite this_onEvent.
    simpl. lia.
  - repeat case_match; try done. by rewrite this_onmessage.
  - repeat case_match; try done; unfold onclose;
      by apply (Hhr (log LogDisconnected (set_state r CLOSED w))).
  - by repeat case_match.
  - by rewrite this_elapse.
Qed.

Lemma attempts_capped_run raises es w :
  (0 ≤ reconnectAttempts (this w) ≤ maxReconnectAttempts (this w))%Z →
  (0 ≤ reconnectAttempts (this (run raises w es))
     ≤ maxReconnectAttempts (this (run raises w es)))%Z
  ∧ maxReconnectAttempts (this (run raises w es))
    = maxReconnectAttempts (this w).
Proof.
  unfold run. revert w.
  induction es as [| e es IH]; intros w Hcap; simpl; [done |].
  destruct (attempts_capped_step raises w e Hcap) as [Hc Hm].
  destruct (IH _ Hc) as [Hc' Hm']. split; [done | congruence].
Qed.

(** The backoff schedule of [handleReconnect]. *)
Lemma handleReconnect_below_cap w :
  (reconnectAttempts (this w) < maxReconnectAttempts (this w))%Z →
  reconnectAttempts (this (handleReconnect w))
  = (reconnectAttempts (this w) + 1)%Z
  ∧ timers (handleReconnect w)
    = setTimeout (clock w) tt
        (reconnectInterval (this w) * (reconnectAttempts (this w) + 1))
        (timers w).
Proof.
  intros Hlt. unfold handleReconnect.
  by rewrite (proj2 (Z.ltb_lt _ _) Hlt).
Qed.

Lemma handleReconnect_at_cap w :
  (maxReconnectAttempts (this w) ≤ reconnectAttempts (this w))%Z →
  handleReconnect w = w.
Proof.
  intros Hge. unfold handleReconnect.
  by rewrite (proj2 (Z.ltb_ge _ _) Hge).
Qed.

(** C1, at the failing input: a connection is opened and then closed by the
    transport.  The counter goes to 1 and the timer set for 1000 ms fires,
    but all it does is write the console line: no second socket is ever
    constructed, the only socket stays closed and the client stays
    disconnected however long one waits. *)
Theorem reconnect_timer_opens_no_connection :
  let quiet : callback → value → bool := λ _ _, false in
  let closed := run quiet (new_RealtimeService 0)
                  [Connect "tok"; SocketOpen 0; SocketClose 0] in
  let later := run quiet closed [Elapse 1000; Elapse 3600000] in
  reconnectAttempts (this closed) = 1%Z
  ∧ timers closed = [(1000%Z, tt)]
  ∧ timers later = []
  ∧ console later = [LogConnected; LogDisconnected; LogReconnecting 1]
  ∧ length (heap later) = 1%nat
  ∧ state_of 0 later = Some CLOSED
  ∧ connected later = false.
Proof. by vm_compute. Qed.

(** C5 as stated fails: after [connect], [open] and an explicit
    [disconnect], the browser delivers the [close] event of the socket that
    [disconnect] closed; [onclose] runs [handleReconnect], which advances
    the counter from 0 to 1 and sets the backoff timer. *)
Lemma disconnect_close_event_advances_counter :
  let quiet : callback → value → bool := λ _ _, false in
  let w := run quiet (new_RealtimeService 0)
             [Connect "tok"; SocketOpen 0; Disconnect] in
  state_of 0 w = Some CLOSING
  ∧ reconnectAttempts (this w) = 0%Z
  ∧ timers w = []
  ∧ reconnectAttempts (this (step quiet w (SocketClose 0))) = 1%Z
  ∧ timers (step quiet w (SocketClose 0)) = [(1000%Z, tt)].
Proof. by vm_compute. Qed.

Lemma disconnect_idempotent w : disconnect (disconnect w) = disconnect w.
Proof.
  unfold disconnect. destruct (ws (this w)) eqn:Hws; simpl; [done |].
  by rewrite Hws.
Qed.

(** C5 (as amended): [disconnect()] closes the active connection if there is
    one and forgets it, a second call changes nothing, and the call itself
    does not run the reconnect policy: it leaves the attempt counter, the
    pending timers and everything else but that socket untouched, and
    whatever the transport and the clock do afterwards, the client
    constructs no socket and [this.ws] stays unset until [connect] is
    called again. *)
Theorem disconnect_closes_and_is_idempotent (w : World) :
  ws (this (disconnect w)) = None
  ∧ (∀ r, ws (this w) = Some r →
          heap (disconnect w) !! r = WebSocket_close <$> heap w !! r)
  ∧ (∀ r, ws (this w) ≠ Some r → heap (disconnect w) !! r = heap w !! r)
  ∧ (ws (this w) = None → disconnect w = w)
  ∧ disconnect (disconnect w) = disconnect w
  ∧ reconnectAttempts (this (disconnect w)) = reconnectAttempts (this w)
  ∧ timers (disconnect w) = timers w
  ∧ subscribers (this (disconnect w)) = subscribers (this w)
  ∧ clock (disconnect w) = clock w
  ∧ console (disconnect w) = console w
  ∧ calls (disconnect w) = calls w
  ∧ (∀ raises es, no_connect es →
       length (heap (run raises (disconnect w) es))
       = length (heap (disconnect w))
       ∧ ws (this (run raises (disconnect w) es)) = None).
Proof.
  pose proof (disconnect_idempotent w) as Hidem.
  assert (ws (this (disconnect w)) = None) as Hnone
    by (unfold disconnect; by destruct (ws (this w)) eqn:Hws).
  assert (∀ raises es, no_connect es →
            length (heap (run raises (disconnect w) es))
            = length (heap (disconnect w))
            ∧ ws (this (run raises (disconnect w) es)) = None) as Hrun.
  { intros raises es Hes. split;
      [by apply heap_length_run | by apply ws_None_run]. }
  clear Hnone. unfold disconnect in *.
  destruct (ws (this w)) as [r0 |] eqn:Hws; simpl in *.
  - split_and!; try done.
    + intros r [= <-]. apply list_lookup_alter_eq.
    + intros r Hr. apply list_lookup_alter_ne. congruence.
  - by rewrite Hws.
Qed.

(** *** What holds of the reconnect policy as written *)

(** The counter never leaves the range from 0 to [maxReconnectAttempts],
    which stays 5, in any run of a new client.  A close below the cap
    raises the counter to [n] and sets one timer [reconnectInterval * n] ms
    ahead; a close at the cap changes nothing; an open resets the counter. *)
Theorem backoff_schedule_is_capped
  (raises : callback → value → bool) (now : Z) (es : list event) (w : World) :
  (0 ≤ reconnectAttempts (this (run raises (new_RealtimeService now) es))
     ≤ 5)%Z
  ∧ maxReconnectAttempts (this (run raises (new_RealtimeService now) es))
    = 5%Z
  ∧ ((reconnectAttempts (this w) < maxReconnectAttempts (this w))%Z →
     reconnectAttempts (this (onclose w))
     = (reconnectAttempts (this w) + 1)%Z
     ∧ timers (onclose w)
       = setTimeout (clock w) tt
           (reconnectInterval (this w) * (reconnectAttempts (this w) + 1))
           (timers w))
  ∧ ((maxReconnectAttempts (this w) ≤ reconnectAttempts (this w))%Z →
     reconnectAttempts (this (onclose w)) = reconnectAttempts (this w)
     ∧ timers (onclose w) = timers w)
  ∧ reconnectAttempts (this (onopen raises w).1) = 0%Z.
Proof.
  destruct (attempts_capped_run raises es (new_RealtimeService now))
    as [Hcap Hmax]; [simpl; lia |]. simpl in Hmax.
  split_and!; [lia | lia | done | | |].
  - intros Hlt. unfold onclose.
    by destruct (handleReconnect_below_cap (log LogDisconnected w) Hlt).
  - intros Hge. unfold onclose.
    by rewrite (handleReconnect_at_cap (log LogDisconnected w) Hge).
  - unfold onopen. by rewrite this_onEvent.
Qed.

(** No connection is ever opened, and [this.ws] is never set, by anything
    but a call of [connect]: not by a timer, not by the transport. *)
Theorem only_connect_opens_a_connection
  (raises : callback → value → bool) (w : World) (es : list event) :
  no_connect es →
  length (heap (run raises w es)) = length (heap w)
  ∧ (ws (this w) = None → ws (this (run raises w es)) = None).
Proof.
  intros Hes. split; [by apply heap_length_run | by apply ws_None_run].
Qed.

Lemma only_connect_opens_a_connection_witness :
  let quiet : callback → value → bool := λ _ _, false in
  let w := run quiet (new_RealtimeService 0)
             [Connect "tok"; SocketOpen 0] in
  let es := [SocketClose 0; Elapse 1000; SocketMessage 0 None;
             Elapse 60000] in
  no_connect es
  ∧ length (heap (run quiet w es)) = 1%nat.
Proof.
  split; [by repeat constructor |].
  by apply (only_connect_opens_a_connection
              (λ _ _, false)
              (run (λ _ _, false) (new_RealtimeService 0)
                 [Connect "tok"; SocketOpen 0])
              [SocketClose 0; Elapse 1000; SocketMessage 0 None;
               Elapse 60000]);
    repeat constructor.
Defined.

(** *** The life of a socket *)

Lemma moved_forward_refl s : moved_forward s s.
Proof. by split_and!. Qed.

(** What an event does to the heap of sockets: it alters at most one socket,
    moving it forward, and appends at most one new one. *)
Lemma heap_step_shape raises w e :
  ∃ f r0 extra,
    heap (step raises w e) = alter f r0 (heap w) ++ extra
    ∧ (∀ s, heap w !! r0 = Some s →
            moved_forward s (f s)
            ∧ (readyState (f s) = CONNECTING → sent (f s) = [] ∨ f s = s))
    ∧ Forall (λ s, readyState s = CONNECTING ∧ sent s = []) extra
    ∧ (∀ r, ws (this (step raises w e)) = Some r →
            ws (this w) = Some r ∨ r < length (heap w ++ extra)).
Proof.
  assert (∃ f r0 extra,
            heap w = alter f r0 (heap w) ++ extra
            ∧ (∀ s, heap w !! r0 = Some s →
                    moved_forward s (f s)
                    ∧ (readyState (f s) = CONNECTING →
                       sent (f s) = [] ∨ f s = s))
            ∧ Forall (λ s, readyState s = CONNECTING ∧ sent s = []) extra)
    as (f & r0 & extra & Hsame & Hgood & Hextra).
  { exists id, 0, []. rewrite app_nil_r, list_alter_id by done.
    split_and!; [done | | done]. intros s _.
    split; [apply moved_forward_refl | by right]. }
  assert (∀ w', heap w' = heap w → ws (this w') = ws (this w) →
            ∃ f r0 extra,
              heap w' = alter f r0 (heap w) ++ extra
              ∧ (∀ s, heap w !! r0 = Some s →
                      moved_forward s (f s)
                      ∧ (readyState (f s) = CONNECTING →
                         sent (f s) = [] ∨ f s = s))
              ∧ Forall (λ s, readyState s = CONNECTING ∧ sent s = []) extra
              ∧ (∀ r, ws (this w') = Some r →
                      ws (this w) = Some r ∨ r < length (heap w ++ extra)))
    as Hframe.
  { intros w' -> ->. exists f, r0, extra. split_and!; try done. by left. }
  assert (∀ g r1 w',
            heap w' = alter g r1 (heap w) → ws (this w') = ws (this w)
            ∨ ws (this w') = None →
            (∀ s, heap w !! r1 = Some s →
                  moved_forward s (g s)
                  ∧ (readyState (g s) = CONNECTING →
                     sent (g s) = [] ∨ g s = s)) →
            ∃ f r0 extra,
              heap w' = alter f r0 (heap w) ++ extra
              ∧ (∀ s, heap w !! r0 = Some s →
                      moved_forward s (f s)
                      ∧ (readyState (f s) = CONNECTING →
                         sent (f s) = [] ∨ f s = s))
              ∧ Forall (λ s, readyState s = CONNECTING ∧ sent s = []) extra
              ∧ (∀ r, ws (this w') = Some r →
                      ws (this w) = Some r ∨ r < length (heap w ++ extra)))
    as Halter.
  { intros g r1 w' Hheap Hws Hg. exists g, r1, []. rewrite app_nil_r.
    split_and!; try done. intros r Hr. left.
    destruct Hws as [<- | Hnone]; [done | congruence]. }
  clear f r0 extra Hsame Hgood Hextra.
  destruct e; simpl.
  - unfold connect. destruct (connected w); [by apply Hframe |].
    exists id, 0, [new_WebSocket token]. simpl.
    rewrite list_alter_id by done. split_and!; try done.
    + intros s _. split; [apply moved_forward_refl | by right].
    + by repeat constructor.
    + intros r [= <-]. right. rewrite length_app. simpl. lia.
  - by apply Hframe.
  - by apply Hframe.
  - unfold send. rewrite serializable_envelope.
    destruct (connected w) eqn:Hc; [| by apply Hframe].
    unfold connected in Hc.
    destruct (ws (this w)) as [r1 |] eqn:Hws; [| done].
    destruct (serializable payload); [| by apply Hframe].
    eapply Halter; [done | by left |]. intros s Hs. rewrite Hs in Hc.
    apply bool_decide_eq_true in Hc. split.
    + split_and!; try done. simpl. by apply prefix_app_r.
    + simpl. congruence.
  - unfold disconnect. destruct (ws (this w)) as [r1 |] eqn:Hws;
      [| by apply Hframe].
    eapply Halter; [done | by right |]. intros s Hs.
    unfold WebSocket_close.
    destruct (readyState s) eqn:Hst; simpl; split;
      try (split_and!; simpl; rewrite ?Hst; simpl; try done; lia);
      try done; by right.
  - unfold state_of.
    destruct (heap w !! r) as [s0 |] eqn:Hr; simpl; [| by apply Hframe].
    destruct (readyState s0) eqn:Hst; try by apply Hframe.
    eapply Halter.
    + unfold onopen. by rewrite heap_onEvent.
    + left. unfold onopen. by rewrite this_onEvent.
    + intros s Hs. assert (s = s0) as -> by congruence. split; [| done].
      split_and!; simpl; try done. rewrite Hst. simpl. lia.
  - repeat case_match; try by apply Hframe.
    apply Hframe; [apply heap_onmessage | by rewrite this_onmessage].
  - unfold state_of.
    destruct (heap w !! r) as [s0 |] eqn:Hr; simpl; [| by apply Hframe].
    assert (∃ f r0 extra,
              heap (onclose (set_state r CLOSED w))
              = alter f r0 (heap w) ++ extra
              ∧ (∀ s, heap w !! r0 = Some s →
                      moved_forward s (f s)
                      ∧ (readyState (f s) = CONNECTING →
                         sent (f s) = [] ∨ f s = s))
              ∧ Forall (λ s, readyState s = CONNECTING ∧ sent s = []) extra
              ∧ (∀ r', ws (this (onclose (set_state r CLOSED w))) = Some r' →
                       ws (this w) = Some r'
                       ∨ r' < length (heap w ++ extra))) as Hclose.
    { eapply Halter.
      - unfold onclose. by rewrite heap_handleReconnect.
      - left. unfold onclose. by rewrite ws_handleReconnect.
      - intros s Hs. split; [| done]. split_and!; simpl; try done.
        destruct (readyState s); simpl; lia. }
    destruct (readyState s0); try done. by apply Hframe.
  - repeat case_match; by apply Hframe.
  - apply Hframe; [apply heap_elapse | by rewrite this_elapse].
Qed.

Lemma sockets_wf_step raises w e :
  sockets_wf w → sockets_wf (step raises w e).
Proof.
  intros [Hws Hfresh].
  destruct (heap_step_shape raises w e)
    as (f & r0 & extra & Hheap & Hf & Hextra & Hws').
  split.
  - intros r Hr. rewrite Hheap, length_app, length_alter.
    destruct (Hws' r Hr) as [Hold | Hnew].
    + apply Hws in Hold. lia.
    + by rewrite length_app in Hnew.
  - rewrite Hheap. apply Forall_app. split.
    + apply Forall_alter; [done |]. intros s Hs Hs' Hst.
      destruct (Hf s Hs) as [_ [Hempty | Heq]]; [done | done |].
      rewrite Heq in *. auto.
    + eapply Forall_impl; [done |]. by intros s [_ ?] _.
Qed.

Lemma sockets_wf_run raises es w :
  sockets_wf w → sockets_wf (run raises w es).
Proof.
  unfold run. revert w.
  induction es as [| e es IH]; intros w Hwf; simpl; [done |].
  by apply IH, sockets_wf_step.
Qed.

(** In every run of a new client [this.ws], when set, refers to a socket
    that was constructed, and a socket that has not opened has sent
    nothing.  In any state, an event leaves every socket in place with its
    URL, never moves its state backwards (CONNECTING, OPEN, CLOSING,
    CLOSED) and only adds to what it has sent. *)
Theorem sockets_only_move_forward
  (raises : callback → value → bool) (now : Z) (es : list event)
  (w : World) (e : event) :
  sockets_wf (run raises (new_RealtimeService now) es)
  ∧ (∀ r s, heap w !! r = Some s →
            ∃ s', heap (step raises w e) !! r = Some s'
                  ∧ moved_forward s s').
Proof.
  split.
  - apply sockets_wf_run. split; [done | constructor].
  - intros r s Hr.
    destruct (heap_step_shape raises w e)
      as (f & r0 & extra & -> & Hf & _ & _).
    destruct (decide (r0 = r)) as [-> | Hne].
    + exists (f s). split; [| by apply Hf].
      apply lookup_app_l_Some. by rewrite list_lookup_alter_eq, Hr.
    + exists s. split; [| apply moved_forward_refl].
      apply lookup_app_l_Some. by rewrite list_lookup_alter_ne.
Qed.

(** *** [subscribe] twice, and [subscribe] then the handle *)

Lemma Set_add_twice (cb : callback) (s : list callback) :
  Set_add cb (Set_add cb s) = Set_add cb s.
Proof.
  unfold Set_add at 1. rewrite decide_True; [done |].
  apply elem_of_Set_add. by left.
Qed.




(** *** Who is told what *)

Lemma calls_fired (fired : list (Z * unit)) w :
  calls (foldl (λ w' _, reconnect_timer w') w fired) = calls w.
Proof.
  revert w. induction fired as [| t fired IH]; intros w; simpl; [done |].
  by rewrite IH.
Qed.

Lemma calls_onEvent raises k d w :
  calls (onEvent raises k d w).1
  = calls w
    ++ (forEach raises (default [] (subscribers (this w) !! k)) d).1.
Proof.
  unfold onEvent. destruct (subscribers (this w) !! k) as [s |]; simpl.
  - by destruct (forEach raises s d).
  - by rewrite app_nil_r.
Qed.

Lemma calls_step_others raises w e :
  match e with
  | SocketOpen _ | SocketMessage _ _ => True
  | _ => calls (step raises w e) = calls w
  end.
Proof.
  destruct e; simpl; try done.
  - unfold connect. by case_match.
  - unfold send. by repeat case_match.
  - unfold disconnect. by case_match.
  - repeat case_match; try done; unfold onclose, handleReconnect;
      by case_match.
  - by repeat case_match.
  - unfold elapse. by rewrite calls_fired.
Qed.

Lemma calls_step_open raises w r :
  calls (step raises w (SocketOpen r))
  = calls w
    ++ match state_of r w with
       | Some CONNECTING =>
           (forEach raises
              (default [] (subscribers (this w) !! "connection"))
              connected_status).1
       | _ => []
       end.
Proof.
  simpl. destruct (state_of r w) as [[] |]; try by rewrite app_nil_r.
  unfold onopen. by rewrite calls_onEvent.
Qed.

Lemma forEach_data {D} (raises : callback → D → bool) s (d : D) :
  Forall (λ c, c.2 = d) (forEach raises s d).1.
Proof.
  destruct (forEach_prefix raises s d) as (invoked & skipped & _ & ->).
  apply Forall_fmap, Forall_forall. by intros.
Qed.

Lemma calls_run_no_message raises es w :
  no_message es →
  ∃ made,
    calls (run raises w es) = calls w ++ made
    ∧ Forall (λ c, c.2 = connected_status) made.
Proof.
  unfold run, no_message. revert w.
  induction es as [| e es IH]; intros w Hes; simpl.
  { exists []. by rewrite app_nil_r. }
  apply Forall_cons in Hes as [He Hes].
  destruct (IH (step raises w e) Hes) as (made & -> & Hmade).
  destruct e; try done;
    try (pose proof (calls_step_others raises w ltac:(eassumption)));
    try (exists made; split; [| done]; f_equal;
         match goal with
         | |- calls (step _ _ ?e) = _ => apply (calls_step_others raises w e)
         end).
  rewrite calls_step_open, <-app_assoc. eexists. split; [done |].
  apply Forall_app. split; [| done].
  destruct (state_of r w) as [[] |]; try by constructor.
  apply forEach_data.
Qed.

(** Subscribers are called when a socket opens and when a message comes in,
    and at no other time: a close, an error, [connect], [disconnect],
    [send], a subscription or a backoff timer calls nobody.  So over any
    run without inbound messages the only data any subscriber is handed is
    [{ status: 'connected' }]. *)
Theorem client_only_announces_connected
  (raises : callback → value → bool) (w : World) (es : list event) :
  no_message es →
  (∃ made,
     calls (run raises w es) = calls w ++ made
     ∧ Forall (λ c, c.2 = connected_status) made)
  ∧ (∀ w' e,
       match e with
       | SocketOpen r =>
           calls (step raises w' e)
           = calls w'
             ++ match state_of r w' with
                | Some CONNECTING =>
                    (forEach raises
                       (default [] (subscribers (this w') !! "connection"))
                       connected_status).1
                | _ => []
                end
       | SocketMessage _ _ => True
       | _ => calls (step raises w' e) = calls w'
       end).
Proof.
  intros Hes. split; [by apply calls_run_no_message |].
  intros w' e. pose proof (calls_step_others raises w' e) as Hothers.
  destruct e; try done. apply calls_step_open.
Qed.

Lemma client_only_announces_connected_witness :
  let quiet : callback → value → bool := λ _ _, false in
  let w := run quiet (new_RealtimeService 0) [Subscribe "connection" 7] in
  let es := [Connect "tok"; SocketOpen 0; Send "ping" VNull; SocketClose 0;
             Elapse 1000; Disconnect] in
  no_message es
  ∧ calls (run quiet w es) = [(7%nat, connected_status)]
  ∧ ∃ made,
      calls (run quiet w es) = calls w ++ made
      ∧ Forall (λ c, c.2 = connected_status) made.
Proof.
  split_and!; [by repeat constructor | by vm_compute |].
  by apply (client_only_announces_connected
              (λ _ _, false)
              (run (λ _ _, false) (new_RealtimeService 0)
                 [Subscribe "connection" 7])
              [Connect "tok"; SocketOpen 0; Send "ping" VNull;
               SocketClose 0; Elapse 1000; Disconnect]);
    repeat constructor.
Defined.

(** *** Inbound messages *)

(** An inbound message never touches the connection, the counter, the timers
    or the subscriptions.  When [JSON.parse] fails, or yields [null], one
    console line is written and nobody is called.  When the parsed value has
    no string under [type], nothing happens at all, not even a console
    line.  Otherwise [payload] is dispatched to the subscribers of that
    type, and if one of them raises, the exception is caught and written to
    the console as a parse error.  A message for a socket that is not open
    is ignored. *)
Theorem inbound_message_is_dispatched_or_dropped
  (raises : callback → value → bool) (parsed : option value) (w : World)
  (r : nat) :
  this (onmessage raises parsed w) = this w
  ∧ heap (onmessage raises parsed w) = heap w
  ∧ timers (onmessage raises parsed w) = timers w
  ∧ clock (onmessage raises parsed w) = clock w
  ∧ match parsed with
    | None | Some VNull | Some VUndefined =>
        onmessage raises parsed w = log LogParseError w
    | Some data =>
        match default VUndefined (get_prop data "type") with
        | VStr eventType =>
            calls (onmessage raises parsed w)
            = calls w
              ++ (forEach raises
                    (default [] (subscribers (this w) !! eventType))
                    (default VUndefined (get_prop data "payload"))).1
            ∧ console (onmessage raises parsed w)
              = console w
                ++ match (forEach raises
                            (default [] (subscribers (this w) !! eventType))
                            (default VUndefined (get_prop data "payload"))).2
                   with
                   | Throw => [LogParseError]
                   | Normal => []
                   end
        | _ => onmessage raises parsed w = w
        end
    end
  ∧ (state_of r w ≠ Some OPEN →
     step raises w (SocketMessage r parsed) = w).
Proof.
  split_and!.
  - apply this_onmessage.
  - apply heap_onmessage.
  - unfold onmessage. repeat case_match; simplify_eq; try done.
    all: unfold onEvent in *; repeat case_match; by simplify_eq.
  - unfold onmessage. repeat case_match; simplify_eq; try done.
    all: unfold onEvent in *; repeat case_match; by simplify_eq.
  - destruct parsed as [data |]; [| done].
    destruct data as [| | b | n | s0 | items | fields | n]; try done.
    unfold onmessage. simpl.
    destruct (default VUndefined (assoc "type" fields)) as [| | | | k | | |];
      try done.
    unfold onEvent.
    destruct (subscribers (this w) !! k) as [s |]; simpl;
      [| by rewrite !app_nil_r].
    destruct (forEach raises s _) as [made []]; simpl;
      by rewrite ?app_nil_r.
  - intros Hstate. simpl. by destruct (state_of r w) as [[] |].
Qed.

End RealtimeFacts.

(** ** The provider that shows the connection status *)

Module ProviderFacts.
Import JS JSFacts RealtimeService RealtimeFacts RealtimeProvider.

Section Provider.
Variables on_connection on_online_users : callback.
Variable others : callback → value → bool.

Lemma shown_after_announcements (s : State)
  (made : list (callback * value)) :
  Forall (λ c, c.2 = connected_status) made →
  connectionStatus (shown on_connection on_online_users s made)
  = if bool_decide (on_connection ∈ made.*1) then VStr "connected"
    else connectionStatus s.
Proof.
  intros Hmade. revert s.
  induction Hmade as [| [cb d] made Hd _ IH]; intros s; [done |].
  simpl in Hd. subst d. unfold shown in *. rewrite fmap_cons.
  cbn [foldl fst]. rewrite IH. unfold receive. cbn [fst snd].
  change (get_prop connected_status "status") with (Some (VStr "connected")).
  change (get_prop connected_status "count") with (Some VUndefined).
  destruct (decide (cb = on_connection)) as [-> | Hne].
  - rewrite (bool_decide_eq_true_2 (on_connection ∈ on_connection :: _))
      by left.
    simpl. by case_bool_decide.
  - assert (bool_decide (on_connection ∈ cb :: made.*1)
            = bool_decide (on_connection ∈ made.*1)) as ->.
    { apply bool_decide_ext. rewrite elem_of_cons. naive_solver. }
    destruct (bool_decide (on_connection ∈ made.*1)); [done |].
    by destruct (decide (cb = on_online_users)).
Qed.

Lemma effect_subscribes (token : string) (now : Z) :
  token ≠ "" →
  let w := effect on_connection on_online_users (Some token)
             (new_RealtimeService now) in
  heap w = [new_WebSocket token]
  ∧ calls w = []
  ∧ default [] (subscribers (this w) !! "connection")
    = Set_add on_connection []
  ∧ ws (this w) = Some 0.
Proof.
  intros Htoken. unfold effect. rewrite decide_False by done.
  by split_and!.
Qed.

(** Once the socket that the provider's effect opened has opened, the
    provider shows "connected", and as long as no inbound message arrives
    it shows "connected" whatever happens: after the transport closes the
    socket, after an error, after [disconnect], after any backoff timer.
    In general, without inbound messages the status shown is either what it
    was or "connected".  The function the effect returns unsubscribes both
    callbacks and leaves the client without a connection. *)
Theorem status_shown_stays_connected
  (token : string) (now : Z) (es : list event) (w : World) (s : State) :
  token ≠ "" →
  no_message es →
  connectionStatus
    (shown on_connection on_online_users initial
       (calls (run (raises on_connection on_online_users others)
                 (effect on_connection on_online_users (Some token)
                    (new_RealtimeService now))
                 (SocketOpen 0 :: es))))
  = VStr "connected"
  ∧ (∃ made,
       calls (run (raises on_connection on_online_users others) w es)
       = calls w ++ made
       ∧ connectionStatus (shown on_connection on_online_users s made)
         = if bool_decide (on_connection ∈ made.*1) then VStr "connected"
           else connectionStatus s)
  ∧ is_registered (cleanup on_connection on_online_users w)
      on_connection "connection" = false
  ∧ is_registered (cleanup on_connection on_online_users w)
      on_online_users "online_users" = false
  ∧ ws (this (cleanup on_connection on_online_users w)) = None.
Proof.
  intros Htoken Hes. split_and!.
  - destruct (effect_subscribes token now Htoken)
      as (Hheap & Hcalls & Hsubs & Hws).
    change (run ?r ?w0 (?e :: es)) with (run r (step r w0 e) es).
    destruct (calls_run_no_message
                (raises on_connection on_online_users others) es
                (step (raises on_connection on_online_users others)
                   (effect on_connection on_online_users (Some token)
                      (new_RealtimeService now)) (SocketOpen 0)) Hes)
      as (made & -> & Hmade).
    rewrite calls_step_open. unfold state_of. rewrite Hheap, Hcalls, Hsubs.
    simpl. unfold raises at 1. rewrite decide_True by done. simpl.
    rewrite shown_after_announcements by done.
    destruct (bool_decide (on_connection ∈ made.*1)); [done |].
    unfold receive. simpl. by rewrite decide_True.
  - destruct (calls_run_no_message
                (raises on_connection on_online_users others) es w Hes)
      as (made & -> & Hmade).
    exists made. split; [done |]. by apply shown_after_announcements.
  - unfold cleanup, is_registered, disconnect.
    assert (∀ w0, subscribers (this (match ws (this w0) with
                                      | Some r =>
                                          set_ws None
                                            (set_heap
                                               (alter WebSocket_close r
                                                  (heap w0)) w0)
                                      | None => w0
                                      end)) = subscribers (this w0)) as ->
      by (intros w0; by destruct (ws (this w0))).
    rewrite subscribers_unsubscribe, decide_False by done.
    rewrite subscribers_unsubscribe, decide_True by done.
    apply bool_decide_eq_false.
    destruct (subscribers (this w) !! "connection"); simpl;
      [rewrite elem_of_Set_delete; naive_solver | apply not_elem_of_nil].
  - unfold cleanup, is_registered, disconnect.
    assert (∀ w0, subscribers (this (match ws (this w0) with
                                      | Some r =>
                                          set_ws None
                                            (set_heap
                                               (alter WebSocket_close r
                                                  (heap w0)) w0)
                                      | None => w0
                                      end)) = subscribers (this w0)) as ->
      by (intros w0; by destruct (ws (this w0))).
    rewrite subscribers_unsubscribe, decide_True by done.
    apply bool_decide_eq_false.
    destruct (subscribers (this _) !! "online_users"); simpl;
      [rewrite elem_of_Set_delete; naive_solver | apply not_elem_of_nil].
  - unfold cleanup, disconnect. by case_match.
Qed.

End Provider.

Lemma status_shown_stays_connected_witness :
  let others : callback → value → bool := λ _ _, false in
  let es := [Send "ping" VNull; SocketClose 0; Elapse 1000; Disconnect;
             Elapse 60000] in
  "tok" ≠ ""
  ∧ no_message es
  ∧ state_of 0
      (run (raises 1 2 others)
         (effect 1 2 (Some "tok") (new_RealtimeService 0))
         (SocketOpen 0 :: es)) = Some CLOSED
  ∧ connectionStatus
      (shown 1 2 initial
         (calls (run (raises 1 2 others)
                   (effect 1 2 (Some "tok") (new_RealtimeService 0))
                   (SocketOpen 0 :: es))))
    = VStr "connected".
Proof.
  split_and!; [done | by repeat constructor | by vm_compute |].
  by apply (status_shown_stays_connected 1 2 (λ _ _, false) "tok" 0
              [Send "ping" VNull; SocketClose 0; Elapse 1000; Disconnect;
               Elapse 60000]
              (new_RealtimeService 0) initial);
    [done | repeat constructor].
Defined.

End ProviderFacts.

(** ** The notification queue *)

Module NotificationFacts.
Import JS JSFacts NotificationService.

Section Queue.
Variable raises : callback → list Notification → bool.

(** *** What each method does to the queue, the timers and the clock *)

Lemma notifySubscribers_eq w :
  notifySubscribers raises w
  = (record_calls
       (forEach raises (subscribers (this w)) (notifications (this w))).1 w,
     (forEach raises (subscribers (this w)) (notifications (this w))).2).
Proof. unfold notifySubscribers. by destruct (forEach raises _ _). Qed.

Lemma add_eq n w :
  add raises n w
  = let w1 := set_notifications
                (newNotification n w :: notifications (this w)) w in
    match forEach raises (subscribers (this w))
            (newNotification n w :: notifications (this w)) with
    | (made, Throw) => (record_calls made w1, None)
    | (made, Normal) =>
        (if truthy (n_persistent n) then record_calls made w1
         else set_timers
                (setTimeout (clock w) (pretty (clock w)) 5000 (timers w))
                (record_calls made w1),
         Some (pretty (clock w)))
    end.
Proof.
  unfold add, notifySubscribers. simpl.
  by destruct (forEach raises _ _) as [made []].
Qed.

Lemma queue_add_notifications n w :
  notifications (this (add raises n w).1)
  = newNotification n w :: notifications (this w).
Proof.
  rewrite add_eq. cbv zeta.
  by destruct (forEach raises _ _) as [made []]; simpl; [case_match |].
Qed.

Lemma queue_add_clock n w : clock (add raises n w).1 = clock w.
Proof.
  rewrite add_eq. cbv zeta.
  by destruct (forEach raises _ _) as [made []]; simpl; [case_match |].
Qed.

Lemma queue_add_timers n w :
  timers (add raises n w).1 = timers w
  ∨ timers (add raises n w).1
    = setTimeout (clock w) (pretty (clock w)) 5000 (timers w).
Proof.
  rewrite add_eq. cbv zeta.
  destruct (forEach raises _ _) as [made []]; simpl; [case_match |]; auto.
Qed.

(** When [add] returns, it returns the text of the clock reading and has set
    the removal timer for it unless [persistent] is truthy. *)
Lemma queue_add_returns n w w1 i :
  add raises n w = (w1, Some i) →
  i = pretty (clock w)
  ∧ w1 = (add raises n w).1
  ∧ timers w1 = (if truthy (n_persistent n) then timers w
                 else setTimeout (clock w) i 5000 (timers w)).
Proof.
  intros Hadd. split_and!; [| by rewrite Hadd |]; revert Hadd;
    rewrite add_eq; cbv zeta;
    destruct (forEach raises _ _) as [made []]; simpl; intros [= <- <-];
    try done.
  by case_match.
Qed.

Lemma ids_filter (i : string) (l : list Notification) :
  id <$> filter (λ n, id n ≠ i) l = filter (λ j, j ≠ i) (id <$> l).
Proof.
  induction l as [| n l IH]; [done |].
  rewrite fmap_cons, !filter_cons. case_decide; [| done].
  by rewrite fmap_cons, IH.
Qed.

Lemma queue_remove_ids i w :
  ids (remove raises i w).1 = filter (λ j, j ≠ i) (ids w).
Proof.
  unfold remove, ids. rewrite notifySubscribers_eq. simpl. apply ids_filter.
Qed.

Lemma queue_remove_frame i w :
  timers (remove raises i w).1 = timers w
  ∧ clock (remove raises i w).1 = clock w
  ∧ subscribers (this (remove raises i w).1) = subscribers (this w).
Proof. unfold remove. by rewrite notifySubscribers_eq. Qed.

Lemma queue_markAsRead_ids i w : ids (markAsRead raises i w).1 = ids w.
Proof.
  unfold markAsRead, ids.
  destruct (list_find _ _) as [[k n] |] eqn:Hfind; [| done].
  apply list_find_Some in Hfind as (Hk & _ & _).
  rewrite notifySubscribers_eq. simpl. rewrite list_fmap_insert. simpl.
  apply list_insert_id. by rewrite list_lookup_fmap, Hk.
Qed.

Lemma queue_markAsRead_frame i w :
  timers (markAsRead raises i w).1 = timers w
  ∧ clock (markAsRead raises i w).1 = clock w
  ∧ subscribers (this (markAsRead raises i w).1) = subscribers (this w).
Proof.
  unfold markAsRead. destruct (list_find _ _) as [[k n] |]; [| done].
  by rewrite notifySubscribers_eq.
Qed.

Lemma fired_effect (fired : list (Z * string)) w :
  ids (foldl (fire raises) w fired) = filter (λ j, j ∉ fired.*2) (ids w)
  ∧ timers (foldl (fire raises) w fired) = timers w
  ∧ clock (foldl (fire raises) w fired) = clock w.
Proof.
  revert w. induction fired as [| t fired IH]; intros w; simpl.
  - split_and!; try done. symmetry. apply filter_keeps_all, Forall_forall.
    intros j _. apply not_elem_of_nil.
  - destruct (IH (fire raises w t)) as (-> & -> & ->).
    unfold fire. rewrite queue_remove_ids.
    destruct (queue_remove_frame t.2 w) as (-> & -> & _).
    split_and!; try done. rewrite list_filter_filter.
    apply list_filter_iff. intros j. rewrite not_elem_of_cons. tauto.
Qed.

Lemma queue_elapse_effect ms w :
  ids (elapse raises ms w)
  = filter (λ j, j ∉ (due (clock w + Z.max 0 ms) (timers w)).*2) (ids w)
  ∧ timers (elapse raises ms w) = pending (clock w + Z.max 0 ms) (timers w)
  ∧ clock (elapse raises ms w) = (clock w + Z.max 0 ms)%Z.
Proof.
  unfold elapse.
  by destruct (fired_effect (due (clock w + Z.max 0 ms) (timers w))
                 (set_timers (pending (clock w + Z.max 0 ms) (timers w))
                    (set_clock (clock w + Z.max 0 ms) w))) as (-> & -> & ->).
Qed.

(** An event that calls [add] is that call. *)
Lemma step_argument e n w :
  argument e = Some n → step raises w e = (add raises n w).1.
Proof. destruct e; simpl; intros [= <-]; done. Qed.

Lemma clock_step w e :
  clock (step raises w e)
  = match e with Elapse ms => (clock w + Z.max 0 ms)%Z | _ => clock w end.
Proof.
  destruct e; simpl; try apply queue_add_clock; try done.
  - apply queue_remove_frame.
  - apply queue_markAsRead_frame.
  - apply queue_elapse_effect.
Qed.

(** The ids in the queue after an event: the id put in, if any, before the
    ids that were there and were not removed, these in their old order. *)
Lemma ids_step w e :
  ids (step raises w e)
  = option_list (inserted_id w e)
    ++ filter (λ j, j ∉ removed_ids w e) (ids w).
Proof.
  assert (∀ l : list string, l = filter (λ j, j ∉ []) l) as Hall.
  { intros l. symmetry. apply filter_keeps_all, Forall_forall.
    intros j _. apply not_elem_of_nil. }
  destruct (argument e) as [n |] eqn:Harg.
  - rewrite (step_argument _ _ _ Harg). unfold inserted_id. rewrite Harg.
    unfold ids at 1. rewrite queue_add_notifications. simpl. f_equal.
    destruct e; simpl; try done; apply Hall.
  - unfold inserted_id. rewrite Harg. simpl.
    destruct e; simpl in *; try done.
    + rewrite queue_remove_ids. apply list_filter_iff. intros j.
      rewrite list_elem_of_singleton. tauto.
    + rewrite queue_markAsRead_ids. apply Hall.
    + apply queue_elapse_effect.
Qed.

(** The timers after an event: an [add] may set one, for the text of the
    clock reading and 5000 ms ahead; time moving on drops those that ran. *)
Lemma timers_step w e t :
  t ∈ timers (step raises w e) →
  match e with
  | Elapse ms => t ∈ timers w ∧ (clock w + Z.max 0 ms < t.1)%Z
  | _ => t ∈ timers w
         ∨ (is_Some (argument e)
            ∧ t = ((clock w + 5000)%Z, pretty (clock w)))
  end.
Proof.
  assert (∀ n, t ∈ timers (add raises n w).1 →
               t ∈ timers w ∨ t = ((clock w + 5000)%Z, pretty (clock w)))
    as Hadd.
  { intros n. destruct (queue_add_timers n w) as [-> | ->]; [by left |].
    rewrite elem_of_setTimeout. naive_solver. }
  destruct e; simpl; intros Ht;
    try (destruct (Hadd _ Ht); [by left | right; by eauto]).
  - left. by destruct (queue_remove_frame i w) as (<- & _).
  - left. by destruct (queue_markAsRead_frame i w) as (<- & _).
  - by left.
  - by left.
  - destruct (queue_elapse_effect ms w) as (_ & Htimers & _).
    rewrite Htimers in Ht. by apply list_elem_of_filter in Ht as [? ?].
Qed.

Lemma timers_step_keep w e t :
  t ∈ timers w →
  match e with
  | Elapse ms => (clock w + Z.max 0 ms < t.1)%Z
  | _ => True
  end →
  t ∈ timers (step raises w e).
Proof.
  assert (∀ n, t ∈ timers w → t ∈ timers (add raises n w).1) as Hadd.
  { intros n Ht. destruct (queue_add_timers n w) as [-> | ->]; [done |].
    rewrite elem_of_setTimeout. by right. }
  intros Ht. destruct e; simpl; intros Hlate; try by apply Hadd.
  - by destruct (queue_remove_frame i w) as (-> & _).
  - by destruct (queue_markAsRead_frame i w) as (-> & _).
  - done.
  - done.
  - destruct (queue_elapse_effect ms w) as (_ & -> & _).
    by apply list_elem_of_filter.
Qed.

Lemma inserted_id_Some w e j :
  inserted_id w e = Some j →
  ∃ n, argument e = Some n ∧ j = default (pretty (clock w)) (n_id n).
Proof.
  unfold inserted_id. destruct (argument e) as [n |]; [| done].
  intros [= <-]. by exists n.
Qed.

(** *** Identity of the notifications in the queue *)

Lemma NoDup_ids_step w e :
  NoDup (ids w) →
  (∀ i, inserted_id w e = Some i → i ∉ ids w) →
  NoDup (ids (step raises w e)).
Proof.
  intros Hnd Hfresh. rewrite ids_step.
  destruct (inserted_id w e) as [i |]; simpl; [| by apply NoDup_filter].
  apply NoDup_cons. split; [| by apply NoDup_filter].
  rewrite list_elem_of_filter. intros [_ Hi]. by apply (Hfresh i).
Qed.

Lemma adds_spaced_NoDup es w free :
  adds_spaced free (clock w) es = true →
  NoDup (ids w) →
  Forall (λ i, ∃ t, i = pretty t ∧ (t < free)%Z) (ids w) →
  NoDup (ids (run raises w es)).
Proof.
  revert w free. induction es as [| e es IH]; intros w free Hsp Hnd Hold;
    [done |].
  change (run raises w (e :: es)) with (run raises (step raises w e) es).
  assert (∀ P : string → Prop,
            Forall P (ids w) →
            Forall P (filter (λ j, j ∉ removed_ids w e) (ids w))) as Hsub.
  { intros P HP. apply Forall_forall. intros j [_ Hj]%list_elem_of_filter.
    by eapply Forall_forall in HP. }
  destruct (argument e) as [n |] eqn:Harg.
  - assert (adds_spaced free (clock w) (e :: es)
            = bool_decide (n_id n = None) && bool_decide (free ≤ clock w)%Z
              && adds_spaced (clock w + 1) (clock w) es) as Heq
      by (destruct e; simpl in *; simplify_eq; by rewrite ?Harg).
    rewrite Heq in Hsp.
    apply andb_prop in Hsp as [[Hid%bool_decide_eq_true
                                  Hfree%bool_decide_eq_true]%andb_prop Hsp].
    assert (inserted_id w e = Some (pretty (clock w))) as Hins
      by (unfold inserted_id; rewrite Harg; simpl; by rewrite Hid).
    apply (IH _ (clock w + 1)%Z).
    + rewrite clock_step. by destruct e.
    + apply NoDup_ids_step; [done |]. rewrite Hins. intros i [= <-] Hin.
      eapply Forall_forall in Hold as (t & Ht%(inj pretty) & Hlt); [| done].
      lia.
    + rewrite ids_step, Hins. simpl. constructor.
      * exists (clock w). split; [done | lia].
      * apply Hsub. eapply Forall_impl; [done |].
        intros i (t & -> & Hlt). exists t. split; [done | lia].
  - assert (inserted_id w e = None) as Hins
      by (unfold inserted_id; by rewrite Harg).
    apply (IH _ free).
    + rewrite clock_step. by destruct e.
    + apply NoDup_ids_step; [done |]. by rewrite Hins.
    + rewrite ids_step, Hins. simpl. by apply Hsub.
Qed.

(** C7 (as amended): whatever the event ([add] and its four shorthands,
    [remove], [markAsRead], a subscription, time moving on and timers
    running), the ids that stay in the queue are the ids that were there, in
    the same order, so no notification changes its id; the queue holds no
    two notifications with one id as long as the id an [add] puts in is not
    in the queue already; and that is so throughout every run of a new
    queue in which no [add] is handed an id and every [add] is made at a
    later clock reading than the [add] before it. *)
Theorem ids_stable_and_unique_when_spaced
  (w : World) (e : event) (now : Z) (es : list event) :
  ids (step raises w e)
  = option_list (inserted_id w e)
    ++ filter (λ j, j ∉ removed_ids w e) (ids w)
  ∧ (NoDup (ids w) →
     (∀ i, inserted_id w e = Some i → i ∉ ids w) →
     NoDup (ids (step raises w e)))
  ∧ (adds_spaced now now es = true →
     NoDup (ids (run raises (new_NotificationService now) es))).
Proof.
  split_and!.
  - apply ids_step.
  - apply NoDup_ids_step.
  - intros Hsp. apply (adds_spaced_NoDup es _ now); [done | |];
      unfold ids; simpl; [apply NoDup_nil_2 | constructor].
Qed.

(** *** Automatic removal *)

Lemma undisturbed_cons i w e rest :
  undisturbed i (clock w) (e :: rest) = true →
  undisturbed i (clock (step raises w e)) rest = true
  ∧ (∀ j, e = Remove j → j ≠ i)
  ∧ (∀ n, argument e = Some n → pretty (clock w) ≠ i ∧ n_id n ≠ Some i).
Proof.
  rewrite clock_step.
  destruct e; simpl; intros H;
    repeat match goal with
           | H : _ && _ = true |- _ => apply andb_prop in H as [? ?]
           | H : bool_decide _ = true |- _ => apply bool_decide_eq_true in H
           end;
    split_and!; try done; intros; simplify_eq; done.
Qed.

Lemma inserted_not_i i w e :
  (∀ n, argument e = Some n → pretty (clock w) ≠ i ∧ n_id n ≠ Some i) →
  inserted_id w e ≠ Some i.
Proof.
  intros Harg (n & Hn & Hi)%inserted_id_Some.
  destruct (Harg n Hn) as [Hnow Hid].
  destruct (n_id n); simpl in Hi; congruence.
Qed.

Lemma elem_of_ids_step i w e :
  inserted_id w e ≠ Some i →
  i ∈ ids (step raises w e) ↔ i ∈ ids w ∧ i ∉ removed_ids w e.
Proof.
  intros Hins. rewrite ids_step, elem_of_app, list_elem_of_filter.
  destruct (inserted_id w e) as [j |]; simpl.
  - rewrite list_elem_of_singleton. naive_solver.
  - rewrite elem_of_nil. tauto.
Qed.

Lemma removed_ids_timers i w e :
  i ∈ removed_ids w e →
  (e = Remove i)
  ∨ (∃ ms t, e = Elapse ms ∧ t ∈ timers w ∧ t.2 = i
             ∧ (t.1 ≤ clock w + Z.max 0 ms)%Z).
Proof.
  destruct e; simpl; try by intros ?%elem_of_nil.
  - intros ->%list_elem_of_singleton. by left.
  - intros (t & -> & [? ?]%list_elem_of_filter)%list_elem_of_fmap.
    right. by exists ms, t.
Qed.

(** A notification that no timer is set for stays. *)
Lemma run_keeps_untimed i es w :
  undisturbed i (clock w) es = true →
  i ∈ ids w →
  (∀ t, t ∈ timers w → t.2 ≠ i) →
  i ∈ ids (run raises w es).
Proof.
  revert w. induction es as [| e es IH]; intros w Hun Hin Htimers; [done |].
  change (run raises w (e :: es)) with (run raises (step raises w e) es).
  apply undisturbed_cons in Hun as (Hun & Hrem & Harg).
  apply IH; [done | |].
  - apply elem_of_ids_step; [by apply inserted_not_i |]. split; [done |].
    intros [-> | (ms & t & -> & Ht & Hti & _)]%removed_ids_timers.
    + by apply (Hrem i).
    + by apply (Htimers t).
  - intros t Ht%timers_step. destruct e;
      try (destruct Ht as [Ht | [[n Hn] ->]];
           [by apply Htimers | simpl; by apply (Harg n)]).
    destruct Ht as [Ht _]. by apply Htimers.
Qed.

(** A notification whose timers all run at [T] stays until [T] and is gone
    from then on. *)
Lemma run_removes_at i T es w :
  undisturbed i (clock w) es = true →
  (∀ t, t ∈ timers w → t.2 = i → t.1 = T) →
  ((clock w < T)%Z → i ∈ ids w ∧ (T, i) ∈ timers w) →
  ((T ≤ clock w)%Z → (i ∉ ids w) ∧ (∀ t, t ∈ timers w → t.2 ≠ i)) →
  ((clock (run raises w es) < T)%Z → i ∈ ids (run raises w es))
  ∧ ((T ≤ clock (run raises w es))%Z → i ∉ ids (run raises w es)).
Proof.
  revert w. induction es as [| e es IH]; intros w Hun Hdue Hbefore Hafter.
  { simpl. split; intros ?; [by apply Hbefore | by apply Hafter]. }
  change (run raises w (e :: es)) with (run raises (step raises w e) es).
  apply undisturbed_cons in Hun as (Hun & Hrem & Harg).
  pose proof (inserted_not_i i w e Harg) as Hins.
  assert (clock w ≤ clock (step raises w e))%Z as Hmono
    by (rewrite clock_step; destruct e; lia).
  assert (∀ t, t ∈ timers (step raises w e) → t.2 = i → t ∈ timers w)
    as Hold.
  { intros t Ht%timers_step Hti. destruct e;
      try (destruct Ht as [Ht | [[n Hn] ->]];
           [done | simpl in Hti; by destruct (Harg n Hn)]).
    by destruct Ht. }
  apply IH; [done | | |].
  - intros t Ht Hti. apply Hdue; [by apply Hold | done].
  - intros Hlt. destruct Hbefore as [Hin HT]; [lia |]. split.
    + apply elem_of_ids_step; [done |]. split; [done |].
      intros [-> | (ms & t & -> & Ht & Hti & Hle)]%removed_ids_timers.
      * by apply (Hrem i).
      * rewrite clock_step in Hlt. apply Hdue in Hti; [lia | done].
    + apply timers_step_keep; [done |]. rewrite clock_step in Hlt.
      by destruct e.
  - intros Hge. destruct (decide (T ≤ clock w)%Z) as [Hw | Hw].
    + destruct (Hafter Hw) as [Hout Hnone]. split.
      * rewrite elem_of_ids_step by done. tauto.
      * intros t Ht Hti. by apply (Hnone t); [apply Hold |].
    + destruct Hbefore as [Hin HT]; [lia |].
      destruct e; try (rewrite clock_step in Hge; lia).
      rewrite clock_step in Hge. simpl.
      destruct (queue_elapse_effect ms w) as (-> & -> & _). split.
      * rewrite list_elem_of_filter. intros [Hgone _]. apply Hgone.
        apply list_elem_of_fmap. exists (T, i). split; [done |].
        by apply list_elem_of_filter.
      * intros t [Hlate Ht]%list_elem_of_filter Hti.
        apply Hdue in Hti; [lia | done].
Qed.

(** C4 (as amended): take a call of [add] that returns, whose argument has no
    id of its own, made when no timer is pending for the id it returns, and
    follow it by any run without a [remove] of that id and without another
    [add] that is made at the same clock reading or is handed that id.  If
    [persistent] is set the notification is in the queue after the run,
    however much time has passed; if it is not, the notification is in the
    queue as long as fewer than 5000 ms have passed and is not in the queue
    once 5000 ms have passed.  [error(message)] without options calls [add]
    with [persistent: true] and no id. *)
Theorem removed_after_delay_unless_persistent
  (n : NewNotification) (w w1 : World) (i : string) (es : list event) :
  add raises n w = (w1, Some i) →
  n_id n = None →
  (∀ t, t ∈ timers w → t.2 ≠ i) →
  undisturbed i (clock w) es = true →
  (if truthy (n_persistent n) then i ∈ ids (run raises w1 es)
   else ((clock (run raises w1 es) < clock w + 5000)%Z
         → i ∈ ids (run raises w1 es))
        ∧ ((clock w + 5000 ≤ clock (run raises w1 es))%Z
           → i ∉ ids (run raises w1 es)))
  ∧ (∀ message,
       error raises message no_options
       = add raises (persistent_error message)
       ∧ truthy (n_persistent (persistent_error message)) = true
       ∧ n_id (persistent_error message) = None).
Proof.
  intros Hadd Hid Hfresh Hun. split; [| done].
  apply queue_add_returns in Hadd as (Hi & -> & Htimers).
  assert (i ∈ ids (add raises n w).1) as Hin.
  { unfold ids. rewrite queue_add_notifications. simpl.
    rewrite Hid. simpl. rewrite Hi. left. }
  pose proof (queue_add_clock n w) as Hclock.
  destruct (truthy (n_persistent n)).
  - apply run_keeps_untimed; [by rewrite Hclock | done |].
    rewrite Htimers. done.
  - apply run_removes_at.
    + by rewrite Hclock.
    + rewrite Htimers. intros t [-> | Ht]%elem_of_setTimeout Hti;
        [simpl; lia | by destruct (Hfresh t Ht)].
    + intros _. split; [done |]. rewrite Htimers.
      apply elem_of_setTimeout. by left.
    + rewrite Hclock. lia.
Qed.

End Queue.

Section Calls.
Variable raises : callback → list Notification → bool.

(** *** [markAsRead] *)

(** C9 (as amended): [markAsRead(id)] does nothing when no notification has
    that id.  When one has, the first such notification gets [read = true]
    and keeps every other field, every other notification stays as it is
    and where it is, and the method then fans out: it runs
    [notifySubscribers] on the updated list, which hands the updated list
    to the subscribers in order, up to and including the first one that
    raises, whose exception leaves [markAsRead]; every subscriber gets the
    list when none of them raises.  Timers, clock and subscribers are
    untouched. *)
Theorem markAsRead_sets_read_only (i : string) (w : World) :
  (i ∉ ids w → markAsRead raises i w = (w, Normal))
  ∧ (i ∈ ids w →
     ∃ k n,
       notifications (this w) !! k = Some n
       ∧ id n = i
       ∧ (∀ j m, notifications (this w) !! j = Some m → j < k → id m ≠ i)
       ∧ markAsRead raises i w
         = notifySubscribers raises
             (set_notifications
                (<[k := set_read true n]> (notifications (this w))) w)
       ∧ notifications (this (markAsRead raises i w).1)
         = <[k := set_read true n]> (notifications (this w))
       ∧ notifications (this (markAsRead raises i w).1) !! k
         = Some {| id := id n; type := type n; message := message n;
                   details := details n; timestamp := timestamp n;
                   read := true; persistent := persistent n |}
       ∧ (∀ j, j ≠ k →
            notifications (this (markAsRead raises i w).1) !! j
            = notifications (this w) !! j)
       ∧ length (notifications (this (markAsRead raises i w).1))
         = length (notifications (this w))
       ∧ calls (markAsRead raises i w).1
         = calls w
           ++ (forEach raises (subscribers (this w))
                 (<[k := set_read true n]> (notifications (this w)))).1
       ∧ (markAsRead raises i w).2
         = (forEach raises (subscribers (this w))
              (<[k := set_read true n]> (notifications (this w)))).2
       ∧ stops_at_first_raise raises (subscribers (this w))
           (<[k := set_read true n]> (notifications (this w)))
           (forEach raises (subscribers (this w))
              (<[k := set_read true n]> (notifications (this w)))).1
           (forEach raises (subscribers (this w))
              (<[k := set_read true n]> (notifications (this w)))).2
       ∧ (Forall (λ cb, raises cb (<[k := set_read true n]>
                                     (notifications (this w))) = false)
            (subscribers (this w)) →
          calls (markAsRead raises i w).1
          = calls w
            ++ ((λ cb, (cb, <[k := set_read true n]>
                              (notifications (this w))))
                  <$> subscribers (this w)))
       ∧ timers (markAsRead raises i w).1 = timers w
       ∧ clock (markAsRead raises i w).1 = clock w
       ∧ subscribers (this (markAsRead raises i w).1) = subscribers (this w)).
Proof.
  unfold markAsRead. split.
  - intros Hout.
    destruct (list_find _ _) as [[k n] |] eqn:Hfind; [| done].
    apply list_find_Some in Hfind as (Hk & Hid & _). destruct Hout.
    unfold ids. apply list_elem_of_fmap. exists n. split; [done |].
    by eapply list_elem_of_lookup_2.
  - intros Hin.
    destruct (list_find _ _) as [[k n] |] eqn:Hfind.
    + apply list_find_Some in Hfind as (Hk & Hid & Hfirst).
      exists k, n. rewrite notifySubscribers_eq. simpl.
      pose proof (lookup_lt_Some _ _ _ Hk) as Hlen.
      split_and!; try done.
      * by rewrite list_lookup_insert_eq.
      * intros j Hj. by rewrite list_lookup_insert_ne.
      * apply length_insert.
      * apply forEach_stops.
      * intros Hquiet. by rewrite forEach_quiet.
    + apply list_find_None in Hfind. unfold ids in Hin.
      apply list_elem_of_fmap in Hin as (n & -> & Hn).
      by eapply Forall_forall in Hfind.
Qed.

(** *** [add] without an id, a timestamp or a read flag in its argument *)

Lemma add_assigns_when_not_supplied (n : NewNotification) (w : World) :
  n_id n = None → n_timestamp n = None → n_read n = None →
  notifications (this (add raises n w).1)
  = {| id := pretty (clock w); type := n_type n; message := n_message n;
       details := n_details n; timestamp := clock w; read := false;
       persistent := n_persistent n |} :: notifications (this w)
  ∧ calls (add raises n w).1
    = calls w
      ++ (forEach raises (subscribers (this w))
            (notifications (this (add raises n w).1))).1.
Proof.
  intros Hid Hts Hread. rewrite queue_add_notifications.
  unfold newNotification. rewrite Hid, Hts, Hread. simpl.
  split; [done |]. rewrite add_eq. cbv zeta.
  unfold newNotification. rewrite Hid, Hts, Hread. simpl.
  by destruct (forEach raises _ _) as [made []]; simpl; [case_match |].
Qed.

Lemma add_returns_head_id (n : NewNotification) (w w1 : World) (i : string) :
  add raises n w = (w1, Some i) →
  n_id n = None →
  ∃ made,
    calls w1 = calls w ++ made
    ∧ Forall (λ c, id <$> head c.2 = Some i) made.
Proof.
  intros Hadd Hid. revert Hadd. rewrite add_eq. cbv zeta.
  destruct (forEach raises _ _) as [made c] eqn:Heq.
  destruct c; [| done]. intros [= <- <-].
  exists made. split; [by case_match |].
  apply forEach_Normal in Heq as [-> _].
  apply Forall_fmap, Forall_forall. intros cb _. simpl.
  unfold newNotification. by rewrite Hid.
Qed.

End Calls.

Lemma add_assigns_when_not_supplied_witness :
  let w := subscribe 1 (new_NotificationService 1000) in
  let n := spread (persistent_error "Login failed") no_options in
  n_id n = None ∧ n_timestamp n = None ∧ n_read n = None
  ∧ notifications (this (add quiet n w).1)
    = {| id := pretty (clock w); type := n_type n; message := n_message n;
         details := n_details n; timestamp := clock w; read := false;
         persistent := n_persistent n |} :: notifications (this w)
  ∧ calls (add quiet n w).1
    = calls w
      ++ (forEach quiet (subscribers (this w))
            (notifications (this (add quiet n w).1))).1.
Proof.
  split_and!; [done | done | done | |];
    by apply (add_assigns_when_not_supplied quiet
                (spread (persistent_error "Login failed") no_options)
                (subscribe 1 (new_NotificationService 1000))).
Defined.

Lemma add_returns_head_id_witness :
  let w := subscribe 2 (subscribe 1 (new_NotificationService 1000)) in
  let n := plain TWarning "Slow network" in
  add quiet n w = ((add quiet n w).1, Some "1000")
  ∧ n_id n = None
  ∧ ∃ made,
      calls (add quiet n w).1 = calls w ++ made
      ∧ Forall (λ c, id <$> head c.2 = Some "1000") made.
Proof.
  split_and!; [by vm_compute | done |].
  by apply (add_returns_head_id quiet (plain TWarning "Slow network")
              (subscribe 2 (subscribe 1 (new_NotificationService 1000)))
              (add quiet (plain TWarning "Slow network")
                 (subscribe 2 (subscribe 1 (new_NotificationService 1000)))).1
              "1000");
    vm_compute.
Defined.

(** A run with its calls of [add] at distinct clock readings. *)
Example spaced_run :
  let es := [Success "Saved" no_options; Elapse 1; Info "Welcome" no_options;
             MarkAsRead "1000"; Elapse 4998; Error "Oops" no_options] in
  adds_spaced 1000 1000 es = true
  ∧ ids (run quiet (new_NotificationService 1000) es)
    = ["5999"; "1001"; "1000"]
  ∧ ids (run quiet (new_NotificationService 1000) (es ++ [Elapse 1]))
    = ["5999"; "1001"]
  ∧ ids (run quiet (new_NotificationService 1000) (es ++ [Elapse 6000]))
    = ["5999"].
Proof. by vm_compute. Qed.

Lemma removed_after_delay_unless_persistent_witness :
  let w := subscribe 1 (new_NotificationService 1000) in
  let n := plain TSuccess "Saved" in
  let es := [MarkAsRead "1000"; Elapse 4999; Info "later" no_options;
             Elapse 1] in
  add quiet n w = ((add quiet n w).1, Some "1000")
  ∧ undisturbed "1000" (clock w) es = true
  ∧ ids (run quiet (add quiet n w).1 [MarkAsRead "1000"; Elapse 4999])
    = ["1000"]
  ∧ "1000" ∉ ids (run quiet (add quiet n w).1 es).
Proof.
  split_and!; [by vm_compute | by vm_compute | by vm_compute |].
  apply (removed_after_delay_unless_persistent quiet
           (plain TSuccess "Saved")
           (subscribe 1 (new_NotificationService 1000))
           (add quiet (plain TSuccess "Saved")
              (subscribe 1 (new_NotificationService 1000))).1
           "1000"
           [MarkAsRead "1000"; Elapse 4999; Info "later" no_options;
            Elapse 1]).
  - by vm_compute.
  - done.
  - intros t Ht. by apply elem_of_nil in Ht.
  - by vm_compute.
  - by vm_compute.
Defined.

(** C4 as stated fails: [error("Login failed")] and [success("Saved")] are
    called at the same clock reading, so both notifications get the id
    "1000".  The error notice is persistent and no timer is set for it, but
    the timer of the other notice runs [remove("1000")] after 5000 ms and
    takes both out of the queue; there was no call of [remove]. *)
Lemma persistent_notice_removed_by_timer :
  let w := run quiet (new_NotificationService 1000)
             [Error "Login failed" no_options; Success "Saved" no_options] in
  (λ n, (id n, type n, persistent n)) <$> notifications (this w)
  = [("1000", TSuccess, None); ("1000", TError, Some true)]
  ∧ timers w = [(6000%Z, "1000")]
  ∧ notifications (this (run quiet w [Elapse 4999]))
    = notifications (this w)
  ∧ notifications (this (run quiet w [Elapse 5000])) = [].
Proof. by vm_compute. Qed.

(** C7 as stated fails: two calls of [add] at one clock reading put two
    notifications with the same id in the queue. *)
Lemma same_tick_adds_share_an_id :
  ids (run quiet (new_NotificationService 1000)
         [Success "Saved" no_options; Info "Welcome" no_options])
  = ["1000"; "1000"].
Proof. by vm_compute. Qed.

(** C9 as stated fails: with two subscribers of which the first raises,
    [markAsRead] sets [read], calls the first subscriber and is left by
    its exception; the second subscriber is not handed the updated list. *)
Lemma raising_subscriber_cuts_the_markAsRead_fan_out :
  let w := subscribe 1
             (subscribe 0
                (add first_raises (plain TInfo "Heads up")
                   (new_NotificationService 1000)).1) in
  subscribers (this w) = [0; 1]%nat
  ∧ (λ n : Notification, (id n, read n)) <$> notifications (this w)
    = [("1000", false)]
  ∧ calls w = []
  ∧ (markAsRead first_raises "1000" w).2 = Throw
  ∧ (λ n : Notification, (id n, read n))
      <$> notifications (this (markAsRead first_raises "1000" w).1)
    = [("1000", true)]
  ∧ (λ c : callback * list Notification,
       (c.1, (λ n : Notification, (id n, read n)) <$> c.2))
      <$> calls (markAsRead first_raises "1000" w).1
    = [(0%nat, [("1000", true)])].
Proof. by vm_compute. Qed.

(** C8, at the failing input: [success("Saved", { id: "abc", timestamp: 7,
    read: true })].  The spread in [add] puts the caller's properties after
    the queue's, so the notification in the queue has the caller's id,
    timestamp and read flag, while [add] returns, and sets the removal timer
    for, the id it made itself. *)
Theorem success_takes_id_timestamp_read_from_caller :
  let options := {| o_id := Some "abc"; o_type := None; o_message := None;
                    o_details := None; o_timestamp := Some 7%Z;
                    o_read := Some true; o_persistent := None |} in
  let w := subscribe 1 (new_NotificationService 1000) in
  (success quiet "Saved" options w).2 = Some "1000"
  ∧ notifications (this (success quiet "Saved" options w).1)
    = [{| id := "abc"; type := TSuccess; message := "Saved";
          details := None; timestamp := 7; read := true;
          persistent := None |}]
  ∧ timers (success quiet "Saved" options w).1 = [(6000%Z, "1000")]
  ∧ ids (run quiet (success quiet "Saved" options w).1 [Elapse 5000])
    = ["abc"].
Proof. by vm_compute. Qed.

(** C10, at the failing input: [info("Heads up", { id: "abc" })] calls [add]
    with an object that has an id.  [add] returns "1000", and the list its
    fan-out delivers to the subscriber starts with a notification whose id
    is "abc". *)
Theorem add_returns_an_id_that_is_not_the_delivered_one :
  let options := {| o_id := Some "abc"; o_type := None; o_message := None;
                    o_details := None; o_timestamp := None;
                    o_read := None; o_persistent := None |} in
  let w := subscribe 1 (new_NotificationService 1000) in
  info quiet "Heads up" options w
  = add quiet (spread (plain TInfo "Heads up") options) w
  ∧ (info quiet "Heads up" options w).2 = Some "1000"
  ∧ (λ c, (c.1, id <$> head c.2)) <$> calls (info quiet "Heads up" options w).1
    = [(1%nat, Some "abc")].
Proof. by vm_compute. Qed.

Section More.
Variable raises : callback → list Notification → bool.

(** *** [remove] *)

(** [remove(id)] takes out every notification with that id and nothing else,
    keeps the order of the rest, and leaves the list as it is when no
    notification has the id; doing it again changes the list no further.
    Whether or not anything was removed it fans out the resulting list, and
    it never cancels a timer: the removal timer of a notice that was
    removed by hand still runs later, finds nothing and fans out again. *)
Theorem remove_filters_and_always_fans_out (i : string) (w : World) :
  notifications (this (remove raises i w).1)
  = filter (λ n, id n ≠ i) (notifications (this w))
  ∧ (i ∉ ids (remove raises i w).1)
  ∧ (i ∉ ids w →
     notifications (this (remove raises i w).1) = notifications (this w))
  ∧ notifications (this (remove raises i (remove raises i w).1).1)
    = notifications (this (remove raises i w).1)
  ∧ calls (remove raises i w).1
    = calls w
      ++ (forEach raises (subscribers (this w))
            (filter (λ n, id n ≠ i) (notifications (this w)))).1
  ∧ timers (remove raises i w).1 = timers w
  ∧ (∀ due_at, fire raises w (due_at, i) = (remove raises i w).1).
Proof.
  assert (∀ w0, notifications (this (remove raises i w0).1)
               = filter (λ n, id n ≠ i) (notifications (this w0))) as Hrm.
  { intros w0. unfold remove. by rewrite notifySubscribers_eq. }
  split_and!.
  - apply Hrm.
  - rewrite queue_remove_ids, list_elem_of_filter. naive_solver.
  - intros Hout. rewrite Hrm. apply filter_keeps_all, Forall_forall.
    intros n Hn Heq. apply Hout. unfold ids. rewrite <-Heq.
    by apply list_elem_of_fmap_2.
  - rewrite !Hrm, list_filter_filter. apply list_filter_iff. naive_solver.
  - unfold remove. by rewrite notifySubscribers_eq.
  - apply queue_remove_frame.
  - done.
Qed.

(** *** [add] and then [remove] *)

(** When [add] has returned an id that no queued notification had, and the
    argument had no id of its own, [remove] of that id puts the list back
    as it was before the [add].  With subscribers that do not raise the two
    calls fan out exactly twice: every subscriber gets the list with the
    new notification and then the list without it.  The timer that [add]
    set for a notification that is not persistent is still pending. *)
Theorem add_then_remove_restores_the_list
  (n : NewNotification) (w w1 : World) (i : string) :
  add raises n w = (w1, Some i) →
  n_id n = None →
  i ∉ ids w →
  notifications (this (remove raises i w1).1) = notifications (this w)
  ∧ (truthy (n_persistent n) = false →
     ((clock w + 5000)%Z, i) ∈ timers (remove raises i w1).1)
  ∧ ((∀ cb l, raises cb l = false) →
     calls (remove raises i w1).1
     = calls w
       ++ ((λ cb, (cb, newNotification n w :: notifications (this w)))
             <$> subscribers (this w))
       ++ ((λ cb, (cb, notifications (this w))) <$> subscribers (this w))).
Proof.
  intros Hadd Hid Hfresh.
  pose proof Hadd as Hret.
  apply queue_add_returns in Hret as (Hi & -> & Htimers).
  assert (filter (λ n0, id n0 ≠ i)
            (newNotification n w :: notifications (this w))
          = notifications (this w)) as Hfilter.
  { rewrite filter_cons. unfold newNotification at 1. simpl.
    rewrite Hid. simpl. rewrite decide_False by (rewrite Hi; naive_solver).
    apply filter_keeps_all, Forall_forall.
    intros n0 Hn0 Heq. apply Hfresh. unfold ids. rewrite <-Heq.
    by apply list_elem_of_fmap_2. }
  split_and!.
  - unfold remove. rewrite notifySubscribers_eq. simpl.
    by rewrite queue_add_notifications.
  - intros Hpers. destruct (queue_remove_frame raises i (add raises n w).1)
      as (-> & _). rewrite Htimers, Hpers.
    apply elem_of_setTimeout. by left.
  - intros Hquiet. unfold remove. rewrite notifySubscribers_eq. simpl.
    rewrite queue_add_notifications, Hfilter.
    assert (subscribers (this (add raises n w).1) = subscribers (this w))
      as ->.
    { rewrite add_eq. cbv zeta.
      by destruct (forEach raises _ _) as [made []]; simpl; [case_match |]. }
    rewrite forEach_quiet by (apply Forall_forall; auto). simpl.
    rewrite add_eq. cbv zeta.
    rewrite forEach_quiet by (apply Forall_forall; auto). simpl.
    case_match; simpl; by rewrite <-app_assoc.
Qed.

(** *** What an event can do to a notification *)

Lemma elem_of_fired (fired : list (Z * string)) w n :
  n ∈ notifications (this (foldl (fire raises) w fired)) →
  n ∈ notifications (this w).
Proof.
  revert w. induction fired as [| t fired IH]; intros w; simpl; [done |].
  intros Hn%IH. unfold fire, remove in Hn.
  rewrite notifySubscribers_eq in Hn. simpl in Hn.
  by apply list_elem_of_filter in Hn as [_ ?].
Qed.

(** Whatever the event, a notification in the queue afterwards is either
    the one the event put in, or one that was in the queue before, as it
    was or with [read] set to true: no field other than [read] of a queued
    notification is ever changed, and [read] is never set back to false. *)
Theorem queued_notifications_only_gain_read
  (w : World) (e : event) (n' : Notification) :
  n' ∈ notifications (this (step raises w e)) →
  (∃ n, n ∈ notifications (this w) ∧ (n' = n ∨ n' = set_read true n))
  ∨ (∃ a, argument e = Some a ∧ n' = newNotification a w).
Proof.
  intros Hn'.
  destruct (argument e) as [a |] eqn:Harg.
  - rewrite (step_argument raises e a w Harg), queue_add_notifications in Hn'.
    apply elem_of_cons in Hn' as [-> | Hn']; [right; by exists a |].
    left. exists n'. auto.
  - left. destruct e; simpl in *; try done.
    + unfold remove in Hn'. rewrite notifySubscribers_eq in Hn'.
      simpl in Hn'. apply list_elem_of_filter in Hn' as [_ Hn'].
      exists n'. auto.
    + unfold markAsRead in Hn'.
      destruct (list_find _ _) as [[k n] |] eqn:Hfind;
        [| exists n'; by auto].
      apply list_find_Some in Hfind as (Hk & _ & _).
      rewrite notifySubscribers_eq in Hn'. simpl in Hn'.
      apply list_elem_of_lookup in Hn' as [j Hj].
      apply list_lookup_insert_Some in Hj as [(-> & <- & _) | [_ Hj]].
      * exists n. split; [by eapply list_elem_of_lookup_2 | by right].
      * exists n'. split; [by eapply list_elem_of_lookup_2 | by left].
    + exists n'. auto.
    + exists n'. auto.
    + unfold elapse in Hn'. apply elem_of_fired in Hn'. exists n'. auto.
Qed.

End More.

Lemma add_then_remove_restores_the_list_witness :
  let w := run quiet (new_NotificationService 1000)
             [Subscribe 1; Error "Login failed" no_options; Elapse 7] in
  let n := plain TSuccess "Saved" in
  add quiet n w = ((add quiet n w).1, Some "1007")
  ∧ n_id n = None
  ∧ ids w = ["1000"]
  ∧ notifications (this (remove quiet "1007" (add quiet n w).1).1)
    = notifications (this w).
Proof.
  split_and!; [by vm_compute | done | by vm_compute |].
  apply (add_then_remove_restores_the_list quiet
           (plain TSuccess "Saved")
           (run quiet (new_NotificationService 1000)
              [Subscribe 1; Error "Login failed" no_options; Elapse 7])
           (add quiet (plain TSuccess "Saved")
              (run quiet (new_NotificationService 1000)
                 [Subscribe 1; Error "Login failed" no_options;
                  Elapse 7])).1
           "1007").
  - by vm_compute.
  - done.
  - vm_compute. by intros [[=] | []%elem_of_nil]%elem_of_cons.
Defined.

Lemma queued_notifications_only_gain_read_witness :
  let w := run quiet (new_NotificationService 1000)
             [Success "Saved" no_options] in
  let n' := {| id := "1000"; type := TSuccess; message := "Saved";
               details := None; timestamp := 1000; read := true;
               persistent := None |} in
  n' ∈ notifications (this (step quiet w (MarkAsRead "1000")))
  ∧ ((∃ n, n ∈ notifications (this w) ∧ (n' = n ∨ n' = set_read true n))
     ∨ (∃ a, argument (MarkAsRead "1000") = Some a
             ∧ n' = newNotification a w)).
Proof.
  assert ({| id := "1000"; type := TSuccess; message := "Saved";
             details := None; timestamp := 1000; read := true;
             persistent := None |}
          ∈ notifications
              (this (step quiet
                       (run quiet (new_NotificationService 1000)
                          [Success "Saved" no_options])
                       (MarkAsRead "1000")))) as Hin
    by (vm_compute; left).
  split; [exact Hin |].
  exact (queued_notifications_only_gain_read quiet
           (run quiet (new_NotificationService 1000)
              [Success "Saved" no_options])
           (MarkAsRead "1000") _ Hin).
Defined.

Section FanOut.
Variable raises : callback → list Notification → bool.
Hypothesis quiet_subscribers : ∀ cb l, raises cb l = false.

Lemma notifySubscribers_quiet w :
  notifySubscribers raises w
  = (record_calls
       ((λ cb, (cb, notifications (this w))) <$> subscribers (this w)) w,
     Normal).
Proof.
  rewrite notifySubscribers_eq, forEach_quiet; [done |].
  apply Forall_forall. auto.
Qed.

Lemma fan_cons l lists subs :
  fan (l :: lists) subs = ((λ cb, (cb, l)) <$> subs) ++ fan lists subs.
Proof. done. Qed.

Lemma fired_fans_out (fired : list (Z * string)) w :
  calls (foldl (fire raises) w fired)
  = calls w
    ++ fan (removals (notifications (this w)) fired) (subscribers (this w))
  ∧ notifications (this (foldl (fire raises) w fired))
    = default (notifications (this w))
        (last (removals (notifications (this w)) fired))
  ∧ subscribers (this (foldl (fire raises) w fired)) = subscribers (this w).
Proof.
  revert w. induction fired as [| t fired IH]; intros w.
  { simpl. by rewrite app_nil_r. }
  cbn [foldl removals].
  destruct (IH (fire raises w t)) as (-> & -> & ->).
  unfold fire, remove. rewrite notifySubscribers_quiet.
  cbn [fst snd calls this notifications subscribers record_calls
       set_notifications].
  rewrite fan_cons, <-app_assoc. split_and!; try done.
  rewrite last_cons. by destruct (last _).
Qed.

Lemma step_fans_out w e :
  calls (step raises w e)
  = calls w ++ fan (fanned_out w e) (subscribers (this w))
  ∧ notifications (this (step raises w e))
    = default (notifications (this w)) (last (fanned_out w e)).
Proof.
  assert (∀ a, calls (add raises a w).1
               = calls w
                 ++ fan [newNotification a w :: notifications (this w)]
                      (subscribers (this w))
               ∧ notifications (this (add raises a w).1)
                 = newNotification a w :: notifications (this w)) as Hadd.
  { intros a. split; [| apply queue_add_notifications].
    rewrite add_eq. cbv zeta.
    rewrite forEach_quiet by (apply Forall_forall; auto).
    unfold fan. rewrite bind_singleton. by case_match. }
  destruct e; simpl; try apply Hadd.
  - unfold remove. rewrite notifySubscribers_quiet. simpl.
    by rewrite app_nil_r.
  - unfold markAsRead. destruct (list_find _ _) as [[k n] |]; simpl.
    + rewrite notifySubscribers_quiet. simpl. by rewrite app_nil_r.
    + by rewrite app_nil_r.
  - by rewrite app_nil_r.
  - by rewrite app_nil_r.
  - unfold elapse.
    by destruct (fired_fans_out (due (clock w + Z.max 0 ms) (timers w))
                   (set_timers (pending (clock w + Z.max 0 ms) (timers w))
                      (set_clock (clock w + Z.max 0 ms) w)))
      as (-> & -> & _).
Qed.

Lemma subscribed_step cb w e :
  cb ∈ subscribers (this w) →
  e ≠ Unsubscribe cb →
  cb ∈ subscribers (this (step raises w e)).
Proof.
  intros Hin Hne.
  assert (∀ a, subscribers (this (add raises a w).1) = subscribers (this w))
    as Hadd.
  { intros a. rewrite add_eq. cbv zeta.
    by destruct (forEach raises _ _) as [made []]; simpl; [case_match |]. }
  destruct e as [a | m o | m o | m o | m o | i | i | cb' | cb' | ms]; simpl;
    unfold success, error, warning, info; rewrite ?Hadd; try done.
  - by destruct (queue_remove_frame raises i w) as (_ & _ & ->).
  - by destruct (queue_markAsRead_frame raises i w) as (_ & _ & ->).
  - apply elem_of_Set_add. by right.
  - apply elem_of_Set_delete. split; [congruence | done].
  - unfold elapse.
    by destruct (fired_fans_out (due (clock w + Z.max 0 ms) (timers w))
                   (set_timers (pending (clock w + Z.max 0 ms) (timers w))
                      (set_clock (clock w + Z.max 0 ms) w)))
      as (_ & _ & ->).
Qed.

Lemma deliveries_app cb (l1 l2 : list (callback * list Notification)) :
  deliveries cb (l1 ++ l2) = deliveries cb l1 ++ deliveries cb l2.
Proof. unfold deliveries. by rewrite filter_app, fmap_app. Qed.

Lemma last_deliveries_one cb (l : list Notification) subs :
  cb ∈ subs → last (deliveries cb ((λ c, (c, l)) <$> subs)) = Some l.
Proof.
  intros Hin.
  destruct (last (deliveries cb ((λ c, (c, l)) <$> subs))) as [x |] eqn:Hlast.
  - apply last_Some_elem_of in Hlast. unfold deliveries in Hlast.
    apply list_elem_of_fmap in Hlast as ([c y] & -> & Hc).
    apply list_elem_of_filter in Hc as [_ Hc].
    apply list_elem_of_fmap in Hc as (c' & [= -> ->] & _). done.
  - apply last_None in Hlast.
    assert (l ∈ deliveries cb ((λ c, (c, l)) <$> subs)) as Hl.
    { unfold deliveries. apply list_elem_of_fmap. exists (cb, l).
      split; [done |]. apply list_elem_of_filter. split; [done |].
      apply list_elem_of_fmap. by exists cb. }
    rewrite Hlast in Hl. by apply elem_of_nil in Hl.
Qed.

Lemma last_deliveries_fan cb lists subs :
  cb ∈ subs → last (deliveries cb (fan lists subs)) = last lists.
Proof.
  intros Hin. induction lists as [| l lists IH] using rev_ind; [done |].
  unfold fan in *. rewrite bind_app, bind_singleton, deliveries_app.
  rewrite last_app, last_deliveries_one by done. by rewrite last_snoc.
Qed.

(** A subscriber that stays subscribed always holds the queue: after any
    run, the last list it was handed is the list in the queue (and if it
    was handed none, the queue is as it was at the start).  Every event
    that changes the list fans it out, in full, to every subscriber. *)
Theorem subscriber_holds_the_current_list
  (cb : callback) (w : World) (es : list event) :
  cb ∈ subscribers (this w) →
  stays_subscribed cb es →
  ∃ made,
    calls (run raises w es) = calls w ++ made
    ∧ default (notifications (this w)) (last (deliveries cb made))
      = notifications (this (run raises w es)).
Proof.
  unfold stays_subscribed, run. revert w.
  induction es as [| e es IH]; intros w Hin Hes; simpl.
  { exists []. by rewrite app_nil_r. }
  apply Forall_cons in Hes as [He Hes].
  destruct (IH (step raises w e)) as (made & -> & <-);
    [by apply subscribed_step | done |].
  destruct (step_fans_out w e) as [-> Hlist].
  exists (fan (fanned_out w e) (subscribers (this w)) ++ made).
  rewrite <-app_assoc. split; [done |].
  rewrite deliveries_app, last_app, Hlist.
  rewrite last_deliveries_fan by done.
  by destruct (last (deliveries cb made)).
Qed.

End FanOut.

Lemma subscriber_holds_the_current_list_witness :
  let w := subscribe 1 (new_NotificationService 1000) in
  let es := [Success "Saved" no_options; Elapse 10;
             Error "Login failed" no_options; MarkAsRead "1010";
             Subscribe 2; Elapse 4990; Remove "1010"] in
  (∀ cb l, quiet cb l = false)
  ∧ 1%nat ∈ subscribers (this w)
  ∧ stays_subscribed 1 es
  ∧ ∃ made,
      calls (run quiet w es) = calls w ++ made
      ∧ default (notifications (this w)) (last (deliveries 1 made))
        = notifications (this (run quiet w es)).
Proof.
  split_and!; [done | left | by repeat constructor |].
  apply (subscriber_holds_the_current_list quiet (λ _ _, eq_refl) 1
           (subscribe 1 (new_NotificationService 1000))
           [Success "Saved" no_options; Elapse 10;
            Error "Login failed" no_options; MarkAsRead "1010";
            Subscribe 2; Elapse 4990; Remove "1010"]);
    [left | by repeat constructor].
Defined.

End NotificationFacts.

(** ** Dispatch when a callback raises *)

Module DispatchFacts.
Import JS JSFacts.

(** C6 (as amended): a dispatch calls the callbacks registered under the key
    in the order of their registration, up to and including the first one
    that raises; the callbacks after that one are not called and the
    exception leaves the dispatch loop ([onEvent] of the push client,
    [notifySubscribers] of the queue).  The [onmessage] handler catches it
    and writes a console line; [add] lets it pass to its caller.  When no
    callback raises, every callback is called. *)
Theorem dispatch_stops_at_first_raise
  (raisesE : callback → value → bool)
  (raisesN : callback → list NotificationService.Notification → bool)
  (eventType : string) (data : value) (callbacks : list callback)
  (rw : RealtimeService.World) (nw : NotificationService.World)
  (n : NotificationService.NewNotification) :
  RealtimeService.subscribers (RealtimeService.this rw) !! eventType
  = Some callbacks →
  (∃ made,
     RealtimeService.calls (RealtimeService.onEvent raisesE eventType data rw).1
     = RealtimeService.calls rw ++ made
     ∧ stops_at_first_raise raisesE callbacks data made
         (RealtimeService.onEvent raisesE eventType data rw).2)
  ∧ ((RealtimeService.onEvent raisesE eventType data rw).2 = Throw →
     RealtimeService.onmessage raisesE
       (Some (VObj [("type", VStr eventType); ("payload", data)])) rw
     = RealtimeService.log RealtimeService.LogParseError
         (RealtimeService.onEvent raisesE eventType data rw).1)
  ∧ (∃ made,
       NotificationService.calls
         (NotificationService.notifySubscribers raisesN nw).1
       = NotificationService.calls nw ++ made
       ∧ stops_at_first_raise raisesN
           (NotificationService.subscribers (NotificationService.this nw))
           (NotificationService.notifications (NotificationService.this nw))
           made
           (NotificationService.notifySubscribers raisesN nw).2)
  ∧ ((NotificationService.notifySubscribers raisesN
        (NotificationService.set_notifications
           (NotificationService.newNotification n nw
              :: NotificationService.notifications
                   (NotificationService.this nw)) nw)).2 = Throw →
     (NotificationService.add raisesN n nw).2 = None).
Proof.
  intros Hsubs. split_and!.
  - unfold RealtimeService.onEvent. rewrite Hsubs.
    pose proof (forEach_stops raisesE callbacks data) as Hstop.
    destruct (forEach raisesE callbacks data) as [made c]. by exists made.
  - unfold RealtimeService.onmessage. simpl.
    destruct (RealtimeService.onEvent raisesE eventType data rw) as [w' c].
    simpl. by intros ->.
  - rewrite NotificationFacts.notifySubscribers_eq. simpl.
    eexists. split; [done |]. apply forEach_stops.
  - rewrite NotificationFacts.notifySubscribers_eq,
      NotificationFacts.add_eq. simpl.
    by destruct (forEach raisesN _ _) as [made []].
Qed.

Lemma dispatch_stops_at_first_raise_witness :
  let raisesE : callback → value → bool := λ cb _, bool_decide (cb = 1%nat) in
  let rw := RealtimeService.run raisesE (RealtimeService.new_RealtimeService 0)
              [RealtimeService.Subscribe "online_users" 0;
               RealtimeService.Subscribe "online_users" 1;
               RealtimeService.Subscribe "online_users" 2] in
  RealtimeService.subscribers (RealtimeService.this rw) !! "online_users"
  = Some [0; 1; 2]%nat
  ∧ ∃ made,
      RealtimeService.calls
        (RealtimeService.onEvent raisesE "online_users" (VNum 3) rw).1
      = RealtimeService.calls rw ++ made
      ∧ stops_at_first_raise raisesE [0; 1; 2]%nat (VNum 3) made
          (RealtimeService.onEvent raisesE "online_users" (VNum 3) rw).2.
Proof.
  split; [by vm_compute |].
  apply (dispatch_stops_at_first_raise
           (λ cb _, bool_decide (cb = 1%nat))
           NotificationService.quiet
           "online_users" (VNum 3) [0; 1; 2]%nat
           (RealtimeService.run (λ cb _, bool_decide (cb = 1%nat))
              (RealtimeService.new_RealtimeService 0)
              [RealtimeService.Subscribe "online_users" 0;
               RealtimeService.Subscribe "online_users" 1;
               RealtimeService.Subscribe "online_users" 2])
           (NotificationService.new_NotificationService 0)
           (NotificationService.plain NotificationService.TInfo "x")).
  by vm_compute.
Defined.

(** C6 as stated fails.  Callbacks 0 and 1 are subscribed to "connection"
    and callback 0 raises: when the socket opens, the dispatch calls
    callback 0 and nothing else.  Likewise in the queue: with subscribers 0
    and 1, [success("Saved")] calls subscriber 0 only, and the exception
    leaves [add], which returns nothing and sets no timer. *)
Lemma raising_callback_starves_the_others :
  let raisesE : callback → value → bool := λ cb _, bool_decide (cb = 0%nat) in
  let rw := RealtimeService.run raisesE (RealtimeService.new_RealtimeService 0)
              [RealtimeService.Subscribe "connection" 0;
               RealtimeService.Subscribe "connection" 1;
               RealtimeService.Connect "tok";
               RealtimeService.SocketOpen 0] in
  let nw := NotificationService.subscribe 1
              (NotificationService.subscribe 0
                 (NotificationService.new_NotificationService 1000)) in
  let added := NotificationService.success NotificationService.first_raises
                 "Saved" NotificationService.no_options nw in
  RealtimeService.subscribers (RealtimeService.this rw) !! "connection"
  = Some [0; 1]%nat
  ∧ RealtimeService.calls rw
    = [(0%nat, VObj [("status", VStr "connected")])]
  ∧ (RealtimeService.onopen raisesE rw).2 = Throw
  ∧ NotificationService.subscribers (NotificationService.this nw)
    = [0; 1]%nat
  ∧ (NotificationService.calls added.1).*1 = [0%nat]
  ∧ added.2 = None
  ∧ NotificationService.timers added.1 = [].
Proof. by vm_compute. Qed.

End DispatchFacts.


(** ** The session: [APIService] and [AuthProvider] *)

Module AuthFacts.
Import JS APIService AuthProvider.

Lemma or_else_nonempty a b : b ≠ "" → or_else a b ≠ "".
Proof. intros Hb. unfold or_else. destruct a; [by case_decide | done]. Qed.

Lemma Authorization_bearer this t :
  APIService.token this = Some t →
  t ≠ "" →
  Authorization this = "Bearer " +:+ t.
Proof. intros Ht Hne. unfold Authorization. rewrite Ht. by case_decide. Qed.

Lemma request_fetch_bearer endpoint options now random this t :
  APIService.token this = Some t →
  t ≠ "" →
  ("Authorization", "Bearer " +:+ t)
  ∈ headers (request_fetch endpoint options now random this).
Proof.
  intros Ht Hne. simpl. rewrite (Authorization_bearer this t) by done.
  apply elem_of_cons. right. by left.
Qed.

Section Provider.
Context {User : Type}.
Implicit Types (s : State User) (e : @event User).

(** A request that is answered without a session leaves the session as
    it was. *)
Lemma signed_in_without_session
  (call : Fetched (APIResponse (Session User))
          → Settled (APIResponse (Session User)) * list APIService.LogLine)
  o s :
  (∀ o, ∃ endpoint, call o = request endpoint o) →
  session_of o = None →
  ∃ lines result,
    signed_in (call o) s = (log lines s, result) ∧ success result = false.
Proof.
  intros Hcall Ho. destruct (Hcall o) as [endpoint ->].
  destruct o as [m | m | status [m | m] | response]; simpl;
    try (eexists _, _; split; [reflexivity | done]).
  simpl in Ho. rewrite Ho. eexists _, _. split; [reflexivity | done].
Qed.

Lemma login_without_session o s :
  session_of o = None →
  ∃ lines result,
    login o s = (log lines s, result) ∧ success result = false.
Proof.
  apply signed_in_without_session. intros o'. by exists "/auth/login".
Qed.

Lemma register_without_session o s :
  session_of o = None →
  ∃ lines result,
    register o s = (log lines s, result) ∧ success result = false.
Proof.
  apply signed_in_without_session. intros o'. by exists "/auth/register".
Qed.

Lemma login_with_session o s d :
  session_of o = Some d →
  ∃ s' result,
    login o s = (s', result)
    ∧ success result = true
    ∧ auth_token s' = Some (session_token d)
    ∧ token s' = Some (session_token d)
    ∧ user s' = Some (session_user d).
Proof.
  intros Ho. destruct o as [m | m | status [m | m] | response]; try done.
  simpl in Ho. unfold login, signed_in. simpl. rewrite Ho.
  eexists _, _. split; [reflexivity | done].
Qed.

Lemma mirror_step s e :
  token s = auth_token s → token (step s e) = auth_token (step s e).
Proof.
  intros Hs.
  destruct e as [now random | o | em pw now random | o | ud now random | o |
                 | up now random | o]; simpl; try done.
  - unfold effect.
    destruct (token s) as [t |] eqn:Ht; [case_decide |]; simpl; congruence.
  - unfold loadUser.
    by destruct o as [m | m | status [m | m] | userData].
  - unfold login, signed_in.
    destruct o as [m | m | status [m | m] | response]; simpl; try done.
    by destruct (response_data response).
  - unfold register, signed_in.
    destruct o as [m | m | status [m | m] | response]; simpl; try done.
    by destruct (response_data response).
  - unfold updateProfile.
    by destruct o as [m | m | status [m | m] | updatedUser].
Qed.

(** The token in React state and the token in [localStorage] never part:
    in every run from the first render, across calls, answers and effects
    in any order, [token] is what the item ['auth_token'] holds. *)
Theorem token_state_mirrors_storage (stored : option string)
  (es : list (@event User)) :
  token (run (initial stored) es) = auth_token (run (initial stored) es).
Proof.
  unfold run.
  assert (token (initial (User := User) stored)
          = auth_token (initial (User := User) stored)) as H by done.
  revert H. generalize (initial (User := User) stored).
  induction es as [| e es IH]; intros s Hs; [done |].
  simpl. apply IH. by apply mirror_step.
Qed.

Lemma signed_out_log t s0 s lines :
  signed_out t s0 s → signed_out t s0 (log lines s).
Proof. done. Qed.

Lemma signed_out_fetch t s0 s endpoint options now random :
  t ≠ "" →
  signed_out t s0 s →
  signed_out t s0 (fetch (request_fetch endpoint options now random) s).
Proof.
  intros Hne (Ha & Hk & Hapi & more & Hf & Hall).
  split_and!; try done.
  exists (more ++ [request_fetch endpoint options now random (apiService s)]).
  simpl. rewrite Hf, <-app_assoc. split; [done |].
  apply Forall_app. split; [done |].
  apply Forall_singleton. by apply request_fetch_bearer.
Qed.

Lemma signed_out_step t s0 s e :
  t ≠ "" →
  signs_in e = false →
  signed_out t s0 s → signed_out t s0 (step s e).
Proof.
  intros Hne He Hs.
  destruct e as [now random | o | em pw now random | o | ud now random | o |
                 | up now random | o]; simpl.
  - unfold effect. destruct Hs as (Ha & Hk & Hrest). rewrite Hk.
    exact (conj Ha (conj Hk Hrest)).
  - unfold loadUser.
    destruct Hs as (Ha & Hk & Hapi & more & Hf & Hall).
    destruct o as [m | m | status [m | m] | userData]; simpl;
      (split_and!; [done .. |]); by exists more.
  - by apply signed_out_fetch.
  - simpl in He. apply bool_decide_eq_false in He.
    destruct (login_without_session o s) as (lines & result & -> & _).
    { destruct (session_of o); [| done]. by destruct He. }
    by apply signed_out_log.
  - by apply signed_out_fetch.
  - simpl in He. apply bool_decide_eq_false in He.
    destruct (register_without_session o s) as (lines & result & -> & _).
    { destruct (session_of o); [| done]. by destruct He. }
    by apply signed_out_log.
  - destruct Hs as (Ha & Hk & Hapi & more & Hf & Hall).
    split_and!; try done. by exists more.
  - by apply signed_out_fetch.
  - unfold updateProfile.
    destruct Hs as (Ha & Hk & Hapi & more & Hf & Hall).
    destruct o as [m | m | status [m | m] | updatedUser]; simpl;
      (split_and!; [done .. |]); by exists more.
Qed.

Lemma signed_out_run t s0 s es :
  t ≠ "" →
  Forall (λ e, signs_in e = false) es →
  signed_out t s0 s → signed_out t s0 (run s es).
Proof.
  intros Hne Hes. revert s. unfold run.
  induction Hes as [| e es He Hes IH]; intros s Hs; [done |].
  simpl. apply IH. by apply signed_out_step.
Qed.

(** [logout] forgets the token in [localStorage] and in React state but
    not the one the [APIService] holds.  Until the next [login] or
    [register] that the server answers with a session, the stored token
    stays absent, and every request that is made still carries the old
    token in its [Authorization] header. *)
Theorem logout_keeps_the_bearer_token (s : State User) (t : string)
  (es : list (@event User)) :
  APIService.token (apiService s) = Some t →
  t ≠ "" →
  Forall (λ e, signs_in e = false) es →
  auth_token (run (logout s) es) = None
  ∧ token (run (logout s) es) = None
  ∧ APIService.token (apiService (run (logout s) es)) = Some t
  ∧ Forall (λ r, ("Authorization", "Bearer " +:+ t) ∈ headers r)
      (fetched_since (logout s) (run (logout s) es)).
Proof.
  intros Hapi Hne Hes.
  destruct (signed_out_run t (logout s) (logout s) es Hne Hes)
    as (Ha & Hk & Hapi' & more & Hf & Hall).
  { split_and!; try done. exists []. by rewrite app_nil_r. }
  split_and!; try done.
  unfold fetched_since. rewrite Hf. by rewrite drop_app_length.
Qed.

End Provider.

Lemma logout_keeps_the_bearer_token_witness :
  let s : State string :=
    run (initial None)
      [Login "ada@example.org" "pw" 100 "k3j9x0a1b";
       LoginSettled
         (Ok (mkAPIResponse true (Some (mkSession "tok" "Ada")) None None));
       Effect 200 "z8y7x6w5v"] in
  let es : list (@event string) :=
    [Effect 300 "a1b2c3d4e";
     Login "ada@example.org" "pw" 400 "f5g6h7i8j";
     LoginSettled (NotOk 401 (Body (Some "Invalid credentials")));
     UpdateProfile (VObj [("city", VStr "Pisa")]) 500 "k9l0m1n2o"] in
  APIService.token (apiService s) = Some "tok"
  ∧ "tok" ≠ ""
  ∧ Forall (λ e, signs_in e = false) es
  ∧ auth_token (run (logout s) es) = None
  ∧ token (run (logout s) es) = None
  ∧ APIService.token (apiService (run (logout s) es)) = Some "tok"
  ∧ Forall (λ r, ("Authorization", "Bearer " +:+ "tok") ∈ headers r)
      (fetched_since (logout s) (run (logout s) es)).
Proof.
  split; [reflexivity |]. split; [done |].
  split; [by repeat constructor |].
  apply (logout_keeps_the_bearer_token
           (run (initial None)
              [Login "ada@example.org" "pw" 100 "k3j9x0a1b";
               LoginSettled
                 (Ok (mkAPIResponse true (Some (mkSession "tok" "Ada"))
                        None None));
               Effect 200 "z8y7x6w5v"])
           "tok"
           [Effect 300 "a1b2c3d4e";
            Login "ada@example.org" "pw" 400 "f5g6h7i8j";
            LoginSettled (NotOk 401 (Body (Some "Invalid credentials")));
            UpdateProfile (VObj [("city", VStr "Pisa")]) 500 "k9l0m1n2o"]);
    [reflexivity | done | by repeat constructor].
Defined.

End AuthFacts.


(** ** The screens *)

Module ScreenFacts.
Import JS APIService AuthProvider NotificationService LoginScreen.

Section Screen.
Context {User : Type}.
Variable raises : callback → list Notification → bool.
Hypothesis quiet_subscribers : ∀ cb l, raises cb l = false.

Lemma add_quiet a q :
  add raises a q
  = (let q1 :=
       record_calls
         ((λ cb, (cb, newNotification a q :: notifications (this q)))
            <$> subscribers (this q))
         (set_notifications (newNotification a q :: notifications (this q)) q)
     in
     if truthy (n_persistent a) then q1
     else set_timers
            (setTimeout (clock q) (pretty (clock q)) 5000 (timers q)) q1,
     Some (pretty (clock q))).
Proof.
  rewrite NotificationFacts.add_eq. cbv zeta.
  rewrite JSFacts.forEach_quiet; [done |].
  apply Forall_forall. auto.
Qed.

(** Every login attempt is answered with exactly one notice.  Whatever the
    request comes to, [handleSubmit] ends normally with the button
    released and one unread notification with a non-empty message put at
    the head of the queue.  If the server answered with a session, the
    view is the dashboard, the notice is a success that a timer removes
    after 5000 ms, and the token and the user of the session are stored.
    Otherwise the view, the stored token, the user and the [APIService]
    are as they were, and the notice is an error that no timer removes. *)
Theorem every_login_attempt_is_answered
  (o : Fetched (APIResponse (Session User))) (s : State User)
  (view : string) (q : World) :
  completion (handleSubmit raises o s view q) = Normal
  ∧ loading (handleSubmit raises o s view q) = false
  ∧ ∃ n,
      notifications (this (notify (handleSubmit raises o s view q)))
      = n :: notifications (this q)
      ∧ id n = pretty (clock q) ∧ read n = false ∧ message n ≠ ""
      ∧ match session_of o with
        | Some d =>
            currentView (handleSubmit raises o s view q) = "dashboard"
            ∧ type n = TSuccess
            ∧ timers (notify (handleSubmit raises o s view q))
              = setTimeout (clock q) (id n) 5000 (timers q)
            ∧ auth_token (auth (handleSubmit raises o s view q))
              = Some (session_token d)
            ∧ token (auth (handleSubmit raises o s view q))
              = Some (session_token d)
            ∧ user (auth (handleSubmit raises o s view q))
              = Some (session_user d)
        | None =>
            currentView (handleSubmit raises o s view q) = view
            ∧ type n = TError ∧ persistent n = Some true
            ∧ timers (notify (handleSubmit raises o s view q)) = timers q
            ∧ auth_token (auth (handleSubmit raises o s view q))
              = auth_token s
            ∧ token (auth (handleSubmit raises o s view q)) = token s
            ∧ user (auth (handleSubmit raises o s view q)) = user s
            ∧ apiService (auth (handleSubmit raises o s view q))
              = apiService s
        end.
Proof.
  unfold handleSubmit.
  destruct (session_of o) as [d |] eqn:Ho.
  - destruct (AuthFacts.login_with_session o s d Ho)
      as (s' & result & -> & Hr & Ha & Hk & Hu).
    unfold answered. rewrite Hr. unfold success. rewrite add_quiet.
    simpl. split_and!; try done.
    eexists. split; [reflexivity |]. by split_and!.
  - destruct (AuthFacts.login_without_session o s Ho)
      as (lines & result & -> & Hr).
    unfold answered. rewrite Hr. unfold NotificationService.error.
    rewrite add_quiet. simpl. split_and!; try done.
    eexists. split; [reflexivity |]. split_and!; try done.
    simpl. by apply AuthFacts.or_else_nonempty.
Qed.

End Screen.

Lemma every_login_attempt_is_answered_witness :
  let o : Fetched (APIResponse (Session string)) :=
    NotOk 401 (Body (Some "Invalid credentials")) in
  let s : State string := initial None in
  let q := NotificationService.subscribe 1 (new_NotificationService 1000) in
  (∀ cb l, quiet cb l = false)
  ∧ completion (handleSubmit quiet o s "login" q) = Normal
  ∧ loading (handleSubmit quiet o s "login" q) = false
  ∧ ∃ n,
      notifications (this (notify (handleSubmit quiet o s "login" q)))
      = n :: notifications (this q)
      ∧ id n = pretty (clock q) ∧ read n = false ∧ message n ≠ ""
      ∧ currentView (handleSubmit quiet o s "login" q) = "login"
      ∧ type n = TError ∧ persistent n = Some true
      ∧ timers (notify (handleSubmit quiet o s "login" q)) = timers q
      ∧ auth_token (auth (handleSubmit quiet o s "login" q)) = auth_token s
      ∧ token (auth (handleSubmit quiet o s "login" q)) = token s
      ∧ user (auth (handleSubmit quiet o s "login" q)) = user s
      ∧ apiService (auth (handleSubmit quiet o s "login" q)) = apiService s.
Proof.
  split; [done |].
  apply (every_login_attempt_is_answered quiet (λ _ _, eq_refl)
           (NotOk 401 (Body (Some "Invalid credentials")))
           (initial (User := string) None) "login"
           (NotificationService.subscribe 1 (new_NotificationService 1000))).
Defined.

Import MainContent.

Lemma view_step (v : string) (e : MainContent.event) :
  v ∈ ["welcome"; "login"; "register"; "dashboard"; "matches";
       "restaurants"; "messages"] →
  MainContent.step v e
  ∈ ["welcome"; "login"; "register"; "dashboard"; "matches";
     "restaurants"; "messages"].
Proof.
  intros Hv. destruct e as [target | isAuthenticated loading]; simpl.
  - case_decide as Ht; [| done].
    repeat (apply elem_of_cons in Hv as [-> | Hv];
            [vm_compute in Ht; set_solver |]).
    by apply elem_of_nil in Hv.
  - unfold MainContent.effect.
    destruct isAuthenticated; [set_solver |].
    destruct loading; [done | set_solver].
Qed.

(** The profile and settings screens are never shown.  Whatever the user
    clicks and however the session changes, the view stays one of the
    seven that some handler names, and the screen rendered for it is one
    of the seven others. *)
Theorem profile_and_settings_are_never_shown (es : list MainContent.event) :
  MainContent.run MainContent.initial es
  ∈ ["welcome"; "login"; "register"; "dashboard"; "matches";
     "restaurants"; "messages"]
  ∧ renderView (MainContent.run MainContent.initial es)
    ∈ [WelcomeScreen; MainContent.LoginScreen; RegisterScreen; Dashboard;
       MatchingInterface; RestaurantBooking; MessagingInterface].
Proof.
  assert (MainContent.run MainContent.initial es
          ∈ ["welcome"; "login"; "register"; "dashboard"; "matches";
             "restaurants"; "messages"]) as Hv.
  { unfold MainContent.run.
    assert (MainContent.initial
            ∈ ["welcome"; "login"; "register"; "dashboard"; "matches";
               "restaurants"; "messages"]) as H by set_solver.
    revert H. generalize MainContent.initial.
    induction es as [| e es IH]; intros v Hv; [done |].
    simpl. apply IH. by apply view_step. }
  split; [done |].
  repeat (apply elem_of_cons in Hv as [-> | Hv];
          [vm_compute; set_solver |]).
  by apply elem_of_nil in Hv.
Qed.

End ScreenFacts.
